(** * File organizer engine: a shallow embedding of [file_organizer.py]

    The engine classifies files of a source tree, resolves conflicts at the
    destination, transfers the files and records every transfer in an undo
    log that [perform_undo] replays backwards.  Two helpers of the front
    end are modelled with it: [get_last_undo_destination] of
    [file_organizer_gui.py], which reads the log, and
    [BulkAddDialog.get_extensions] of [category_editor.py], which prepares
    extensions for the category map.

    Modelling conventions.
    - A [path] is the list of its components, root first, as [Path.parts]
      gives them; [Path.resolve] is the identity (paths are taken to be
      absolute and free of symlinks), and the one relative path of the
      engine, the undo log, is joined to the working directory [cwd].
      A component is a name like another, [..] included: where a path
      leads is for the file system to say, and no statement reads a
      prefix of a path as a place in a tree.
    - A Python [str] is a [string] of bytes, its UTF-8 form, a byte that
      belongs to no character standing for the lone surrogate as which
      Python reads it.  [lower], [upper], [isalpha] and [strip] act on
      the ASCII range and leave every other byte alone.  Where the
      engine looks at one character, the first letter of a stem, the
      character is cut out by the rules of UTF-8 and, outside ASCII,
      looked up in the tables of the interpreter, which are fields of
      the interface.
    - The operating system is an interface ([FileSystem]): every primitive
      takes the current world and returns an answer together with the next
      world, and may answer with an [OSError].  The calls that encode or
      decode text, the append to the undo log and the reading of it, and
      the two functions [list_files] and [load_categories], which a run
      calls before its first file, may answer with an exception of any
      class.  [Path.exists] and [Path.is_dir] always answer.  Each
      primitive call that can change the world is also recorded in a
      trace of [event]s, next to the calls of the caller's progress
      callbacks.
    - A category map holds what its declared type says, strings.
    - [logger] calls are left out, except the aggregated warning of
      [build_ext_index], which is returned next to the index.
    - [while True] of [unique_path] is run with fuel; running out of it is
      the outcome [Diverge], which no [except] clause catches. *)

From Stdlib Require Import ZArith QArith Lia Ascii String DecimalString.
From stdpp Require Import base strings list gmap.

Local Open Scope string_scope.
Local Open Scope list_scope.

(** ** Strings *)

Definition ascii_lower (c : ascii) : ascii :=
  let n := nat_of_ascii c in
  if (65 <=? n)%nat && (n <=? 90)%nat then ascii_of_nat (n + 32) else c.

Definition ascii_upper (c : ascii) : ascii :=
  let n := nat_of_ascii c in
  if (97 <=? n)%nat && (n <=? 122)%nat then ascii_of_nat (n - 32) else c.

Definition ascii_isalpha (c : ascii) : bool :=
  let n := nat_of_ascii c in
  ((65 <=? n)%nat && (n <=? 90)%nat) || ((97 <=? n)%nat && (n <=? 122)%nat).

Definition ascii_isspace (c : ascii) : bool :=
  let n := nat_of_ascii c in
  ((9 <=? n)%nat && (n <=? 13)%nat) || ((28 <=? n)%nat && (n <=? 32)%nat).

Fixpoint str_map (f : ascii → ascii) (s : string) : string :=
  match s with
  | EmptyString => EmptyString
  | String c s' => String (f c) (str_map f s')
  end.

(** [str.lower()] and [str.upper()], on the ASCII letters. *)
Definition lower (s : string) : string := str_map ascii_lower s.
Definition upper (s : string) : string := str_map ascii_upper s.

Fixpoint lstrip (s : string) : string :=
  match s with
  | String c s' => if ascii_isspace c then lstrip s' else s
  | EmptyString => EmptyString
  end.

Fixpoint str_rev_onto (acc s : string) : string :=
  match s with
  | EmptyString => acc
  | String c s' => str_rev_onto (String c acc) s'
  end.

Definition str_rev (s : string) : string := str_rev_onto EmptyString s.

(** [str.strip()], of ASCII white space. *)
Definition strip (s : string) : string :=
  str_rev (lstrip (str_rev (lstrip s))).

(** [str.split(sep)] for a separator of one character: the result is never
    empty, and two adjacent separators enclose an empty field. *)
Fixpoint split (sep : ascii) (s : string) : list string :=
  match s with
  | EmptyString => [EmptyString]
  | String c s' =>
      if Ascii.eqb c sep then EmptyString :: split sep s'
      else match split sep s' with
           | h :: t => String c h :: t
           | [] => [String c EmptyString]
           end
  end.

(** [str.join]. *)
Fixpoint join (sep : string) (l : list string) : string :=
  match l with
  | [] => ""
  | [x] => x
  | x :: l' => x +:+ sep +:+ join sep l'
  end.

(** [str(n)] for a natural number. *)
Definition str_of_nat (n : nat) : string :=
  NilZero.string_of_uint (Nat.to_uint n).

(** The format [{n:02d}]. *)
Definition fmt_02d (n : nat) : string :=
  if (n <? 10)%nat then "0" +:+ str_of_nat n else str_of_nat n.

(** Index of the last ['.'] of a string, [str.rfind('.')]. *)
Fixpoint rfind_dot_from (i : nat) (s : string) : option nat :=
  match s with
  | EmptyString => None
  | String c s' =>
      match rfind_dot_from (S i) s' with
      | Some j => Some j
      | None => if Ascii.eqb c "."%char then Some i else None
      end
  end.

Definition rfind_dot (s : string) : option nat := rfind_dot_from 0 s.

Definition LF : ascii := ascii_of_nat 10.
Definition CR : ascii := ascii_of_nat 13.

(** The lines of a text as [readlines] gives them for a file opened in
    text mode: a line ends after a line feed, a carriage return or the
    two in a row, each of which is read as one line feed.  [after_cr]
    says that the character before was a carriage return. *)
Fixpoint lines_from (after_cr : bool) (s : string) : list string :=
  match s with
  | EmptyString => []
  | String c s' =>
      if Ascii.eqb c LF then
        if after_cr then lines_from false s'
        else String LF EmptyString :: lines_from false s'
      else if Ascii.eqb c CR then
        String LF EmptyString :: lines_from true s'
      else
        match lines_from false s' with
        | [] => [String c EmptyString]
        | l :: ls => String c l :: ls
        end
  end.

Definition readlines (text : string) : list string := lines_from false text.

(** The byte is one of the bytes from [lo] to [hi]. *)
Definition byte_in (lo hi : nat) (c : ascii) : bool :=
  (lo <=? nat_of_ascii c)%nat && (nat_of_ascii c <=? hi)%nat.

(** The number of bytes of the well-formed UTF-8 character with which
    the string begins, if it begins with one. *)
Definition utf8_char_len (s : string) : option nat :=
  match s with
  | EmptyString => None
  | String c0 s1 =>
      if byte_in 0 127 c0 then Some 1
      else
        match s1 with
        | EmptyString => None
        | String c1 s2 =>
            if byte_in 194 223 c0 then
              if byte_in 128 191 c1 then Some 2 else None
            else
              match s2 with
              | EmptyString => None
              | String c2 s3 =>
                  if byte_in 224 239 c0 then
                    if (if byte_in 224 224 c0 then byte_in 160 191 c1
                        else if byte_in 237 237 c0 then byte_in 128 159 c1
                        else byte_in 128 191 c1)
                       && byte_in 128 191 c2
                    then Some 3 else None
                  else
                    match s3 with
                    | EmptyString => None
                    | String c3 _ =>
                        if byte_in 240 244 c0
                           && (if byte_in 240 240 c0 then byte_in 144 191 c1
                               else if byte_in 244 244 c0
                                    then byte_in 128 143 c1
                               else byte_in 128 191 c1)
                           && byte_in 128 191 c2 && byte_in 128 191 c3
                        then Some 4 else None
                    end
              end
        end
  end.

(** [s[0]] for a string that is not empty: the bytes of its first
    character.  A byte that begins no well-formed character is a
    character of its own, the lone surrogate as which Python reads it. *)
Definition first_char (s : string) : string :=
  match utf8_char_len s with
  | Some n => substring 0 n s
  | None => substring 0 1 s
  end.

(** The string is well-formed UTF-8: it holds no byte that Python reads
    as a lone surrogate, so that it can be written to a UTF-8 file. *)
Fixpoint utf8_text_from (fuel : nat) (s : string) : bool :=
  match s with
  | EmptyString => true
  | _ =>
      match fuel, utf8_char_len s with
      | S fuel', Some n =>
          utf8_text_from fuel' (substring n (String.length s - n) s)
      | _, _ => false
      end
  end.

Definition utf8_text (s : string) : bool :=
  utf8_text_from (String.length s) s.

(** ** Paths *)

Definition path := list string.

(** [p / s] for a name [s] of one component: a file name, a folder that
    the engine computes, the name of a category.  [pathlib] keeps [..]
    as a component as well. *)
Definition pjoin (p : path) (s : string) : path := p ++ [s].

(** [Path.parent] *)
Definition parent (p : path) : path := removelast p.

(** [Path.name] *)
Definition name (p : path) : string := List.last p "".

(** [Path.suffix]: the part of the name from its last dot, unless that dot
    is the first or the last character of the name. *)
Definition suffix (p : path) : string :=
  let n := name p in
  match rfind_dot n with
  | Some i =>
      if (0 <? i)%nat && (i <? String.length n - 1)%nat
      then substring i (String.length n - i) n else ""
  | None => ""
  end.

(** [Path.stem] *)
Definition stem (p : path) : string :=
  let n := name p in
  match rfind_dot n with
  | Some i =>
      if (0 <? i)%nat && (i <? String.length n - 1)%nat
      then substring 0 i n else n
  | None => n
  end.

(** [other in p.parents]: [other] is a proper ancestor of [p]. *)
Definition in_parents (other p : path) : bool :=
  bool_decide (other ≠ p) && bool_decide (other `prefix_of` p).

(** [str(path)] *)
Definition path_str (p : path) : string := join "/" p.

(** ** Exceptions, outcomes and the world *)

(** The [OSError] family the primitives raise; [shutil.Error] is one of
    its subclasses. *)
Inductive oserror := PermissionError | ShutilError | OtherOSError.

Inductive exn :=
| OSErr (e : oserror)
| ValueError (msg : string)
| CallbackError (msg : string)
(** an exception of any other class, by its name: [UnicodeDecodeError],
    [UnicodeEncodeError], [AttributeError], [TypeError], [RuntimeError] *)
| PyError (class_name : string).

Inductive res (A : Type) := Good (a : A) | Bad (e : oserror).
Arguments Good {A} a.
Arguments Bad {A} e.

(** The answer of a call that may raise an exception of any class: the
    calls that decode or encode text, and the two functions of the
    engine that the model takes as given. *)
Inductive answer (A : Type) := Fine (a : A) | Fails (e : exn).
Arguments Fine {A} a.
Arguments Fails {A} e.

(** A file's last-modified time as [datetime.fromtimestamp] gives it. *)
Record datetime := { year : nat; month : nat; day : nat }.

(** A category map: an insertion-ordered dict from category name to the
    extensions of the category, each in the iteration order of its set. *)
Definition categories := list (string * list string).

Class FileSystem (W : Type) := {
  (** the working directory, against which [Path("undo.log")] resolves *)
  cwd : path;
  (** [Path.exists], [Path.is_dir] *)
  path_exists : path → W → bool;
  path_is_dir : path → W → bool;
  (** [Path.mkdir(parents=True, exist_ok=True)] *)
  os_mkdir_parents : path → W → res unit * W;
  (** [shutil.move], [shutil.copy2], [shutil.rmtree], [Path.unlink] *)
  os_move : path → path → W → res unit * W;
  os_copy2 : path → path → W → res unit * W;
  os_rmtree : path → W → res unit * W;
  os_unlink : path → W → res unit * W;
  (** [open(p, "a", encoding="utf-8")] followed by one [write]; beside
      an [OSError] the write may raise a [UnicodeEncodeError] *)
  os_append : path → string → W → answer unit * W;
  (** [open(p, "r", encoding="utf-8")] followed by [readlines]; beside
      an [OSError] the read may raise a [UnicodeDecodeError] *)
  os_readlines : path → W → answer (list string) * W;
  (** [Path.stat]: [st_size] and the date of [st_mtime] *)
  os_stat_size : path → W → res Z;
  os_stat_mtime : path → W → res datetime;
  (** [list_files source recursive exclude_dir], which raises what its
      listing of the directory raises *)
  os_list_files : path → bool → option path → W → answer (list path);
  (** [load_categories()], which may create [categories.json] and raises
      on a document that is no object of lists *)
  os_load_categories : W → answer categories * W;
  (** the directories [validate_paths] refuses on this platform *)
  system_dirs : list path;
  (** the Unicode tables of the interpreter: [ch.upper()] for one
      character [ch] outside ASCII, and [s.isalpha()] for a well-formed
      string [s] that holds a character outside ASCII *)
  uni_upper : string → string;
  uni_isalpha : string → bool;
}.

Inductive event :=
| EvMkdir (p : path)
| EvMove (src dst : path)
| EvCopy (src dst : path)
| EvRmtree (p : path)
| EvUnlink (p : path)
| EvAppend (p : path) (line : string)
| EvReadLines (p : path)
| EvLoadCategories
| EvUndoProgress (idx total : nat)
| EvRunProgress (idx total : nat) (item : path) (result : option bool).

Record state (W : Type) := St { world : W; trace : list event }.
Arguments St {W} world trace.
Arguments world {W} s.
Arguments trace {W} s.

Inductive outcome (A : Type) :=
| Ret (a : A)
| Raise (e : exn)
| Diverge.
Arguments Ret {A} a.
Arguments Raise {A} e.
Arguments Diverge {A}.

(** The value of an outcome that returned. *)
Definition ret_value {A} (o : outcome A) : option A :=
  match o with Ret a => Some a | _ => None end.

(** A computation: reads and changes the state, and returns, raises or
    fails to terminate. *)
Definition M (W A : Type) : Type := state W → outcome A * state W.

Definition ret {W A} (a : A) : M W A := fun s => (Ret a, s).

Definition bind {W A B} (m : M W A) (k : A → M W B) : M W B :=
  fun s =>
    match m s with
    | (Ret a, s') => k a s'
    | (Raise e, s') => (Raise e, s')
    | (Diverge, s') => (Diverge, s')
    end.

Definition raise {W A} (e : exn) : M W A := fun s => (Raise e, s).

(** [try: m  except <handles>: h] *)
Definition try_except {W A} (m : M W A) (handles : exn → bool)
    (h : exn → M W A) : M W A :=
  fun s =>
    match m s with
    | (Raise e, s') => if handles e then h e s' else (Raise e, s')
    | r => r
    end.

Notation "'do' x <- m ; k" := (bind m (λ x, k))
  (at level 10, x name, m at level 100, k at level 200,
   format "'[v' 'do'  x  <-  m ; '/' k ']'").
Notation "'run' m ; k" := (bind m (λ _, k))
  (at level 10, m at level 100, k at level 200,
   format "'[v' 'run'  m ; '/' k ']'").

(** The classes of the [except] clauses. *)
Definition is_OSError (e : exn) : bool :=
  match e with OSErr _ => true | _ => false end.
Definition is_PermissionError (e : exn) : bool :=
  match e with OSErr PermissionError => true | _ => false end.
Definition is_shutil_Error (e : exn) : bool :=
  match e with OSErr ShutilError => true | _ => false end.
Definition is_Exception (e : exn) : bool := true.

(** ** Primitive steps *)

Definition nl : string := String (ascii_of_nat 10) EmptyString.

Section Engine.
Context {W : Type} `{FileSystem W}.

(** A call that may change the world: recorded in the trace. *)
Definition prim {A} (ev : event) (op : W → res A * W) : M W A :=
  λ s,
    let '(r, w') := op (world s) in
    (match r with Good a => Ret a | Bad e => Raise (OSErr e) end,
     St w' (trace s ++ [ev])).

(** A call that may change the world and raise an exception of any
    class: recorded in the trace. *)
Definition call {A} (ev : event) (op : W → answer A * W) : M W A :=
  λ s,
    let '(r, w') := op (world s) in
    (match r with Fine a => Ret a | Fails e => Raise e end,
     St w' (trace s ++ [ev])).

(** A query of the world. *)
Definition observe {A} (f : W → A) : M W A :=
  λ s, (Ret (f (world s)), s).

(** A query that may raise. *)
Definition query {A} (f : W → res A) : M W A :=
  λ s,
    (match f (world s) with Good a => Ret a | Bad e => Raise (OSErr e) end, s).

(** A query that may raise an exception of any class. *)
Definition ask {A} (f : W → answer A) : M W A :=
  λ s,
    (match f (world s) with Fine a => Ret a | Fails e => Raise e end, s).

(** A call of a callback of the caller. *)
Definition emit (ev : event) : M W unit :=
  λ s, (Ret tt, St (world s) (trace s ++ [ev])).

Definition diverge {A} : M W A := λ s, (Diverge, s).

(** [UNDO_LOG_FILE = Path("undo.log")], a path relative to the working
    directory. *)
Definition UNDO_LOG_FILE : path := pjoin cwd "undo.log".

(** ** [build_ext_index] *)

Definition dup_msg (e_lower first cat : string) : string :=
  e_lower +:+ " in both '" +:+ first +:+ "' and '" +:+ cat +:+ "'".

(** The body of the inner loop, for one extension [e] of category [cat]. *)
Definition index_ext (cat : string)
    (acc : gmap string string * list string) (e : string)
    : gmap string string * list string :=
  let '(idx, duplicates) := acc in
  if bool_decide (e ≠ "") then
    let e_lower := lower e in
    match idx !! e_lower with
    | Some first => (idx, duplicates ++ [dup_msg e_lower first cat])
    | None => (<[e_lower := cat]> idx, duplicates)
    end
  else acc.

(** The two nested loops: the index and the list [duplicates]. *)
Definition ext_index_scan (cats : categories)
    : gmap string string * list string :=
  foldl (λ acc ce, foldl (index_ext ce.1) acc ce.2) (∅, []) cats.

Definition duplicates_warning (duplicates : list string) : option string :=
  match duplicates with
  | [] => None
  | _ => Some ("Duplicate extensions detected (using first occurrence):"
               +:+ nl +:+ join nl duplicates)
  end.

(** Returns the index and the warning it logs, if any. *)
Definition build_ext_index (cats : categories)
    : gmap string string * option string :=
  let '(idx, duplicates) := ext_index_scan cats in
  (idx, duplicates_warning duplicates).

(** ** [unique_path] and [resolve_conflict] *)

(** [parent / f"{stem} ({i}){suffix}"] *)
Definition candidate (p : path) (i : nat) : path :=
  pjoin (parent p) (stem p +:+ " (" +:+ str_of_nat i +:+ ")" +:+ suffix p).

Fixpoint unique_path_loop (fuel : nat) (p : path) (i : nat) : M W path :=
  match fuel with
  | O => diverge
  | S fuel' =>
      do taken <- observe (path_exists (candidate p i));
      if negb taken then ret (candidate p i)
      else unique_path_loop fuel' p (S i)
  end.

Definition unique_path (fuel : nat) (p : path) : M W path :=
  do there <- observe (path_exists p);
  if negb there then ret p else unique_path_loop fuel p 1.

(** Under the overwrite policy [unlink(missing_ok=True)] is the plain
    [os_unlink]: any [OSError] it raises, a missing file included, ends
    in the same [except OSError] clause. *)
Definition resolve_conflict (fuel : nat) (destination : path)
    (conflict_policy : string) : M W (option path) :=
  do there <- observe (path_exists destination);
  if negb there then ret (Some destination)
  else if String.eqb conflict_policy "skip" then ret None
  else if String.eqb conflict_policy "overwrite" then
    run try_except
          (do still <- observe (path_exists destination);
           if still then
             do isd <- observe (path_is_dir destination);
             if isd then prim (EvRmtree destination) (os_rmtree destination)
             else prim (EvUnlink destination) (os_unlink destination)
           else ret tt)
          is_OSError (λ _, ret tt);
    ret (Some destination)
  else if String.eqb conflict_policy "rename" then
    do new_path <- unique_path fuel destination;
    ret (Some new_path)
  else raise (ValueError ("Unknown conflict policy: " +:+ conflict_policy)).

(** ** [log_undo_operation] and [do_transfer] *)

Definition undo_record (action : string) (src dst : path) : string :=
  upper action +:+ "|" +:+ path_str src +:+ "|" +:+ path_str dst +:+ nl.

(** The formatting of the record and its write are one call, which an
    exception that is no [OSError] leaves. *)
Definition log_undo_operation (action : string) (src dst : path) : M W unit :=
  try_except
    (call (EvAppend UNDO_LOG_FILE (undo_record action src dst))
          (os_append UNDO_LOG_FILE (undo_record action src dst)))
    is_OSError (λ _, ret tt).

Definition do_transfer (src dst : path) (action : string) (dry_run : bool)
    : M W bool :=
  try_except
    (try_except
       (try_except
          (run prim (EvMkdir (parent dst)) (os_mkdir_parents (parent dst));
           if dry_run then ret true
           else
             run (if String.eqb action "move" then
                    prim (EvMove src dst) (os_move src dst)
                  else if String.eqb action "copy" then
                    prim (EvCopy src dst) (os_copy2 src dst)
                  else raise (ValueError ("Unknown action: " +:+ action)));
             run log_undo_operation action src dst;
             ret true)
          is_PermissionError (λ _, ret false))
       is_shutil_Error (λ _, ret false))
    is_Exception (λ _, ret false).


(** ** The classifiers *)

(** The keyword arguments of a run. *)
Record params := {
  source : path;
  dest : path;
  mode : string;
  action : string;
  recursive : bool;
  conflict_policy : string;
  dry_run : bool;
  skip_unknown : bool;
  files : option (list path);
  categories_arg : option categories;
  (** [cancel_event.is_set()] when polled before the file of a given index *)
  cancel_event : option (nat → bool);
  (** the callback, and the exception it raises at a call, if any *)
  on_progress : option (nat → nat → path → option bool → option exn);
}.

Definition organize_by_type (fuel : nat) (file dest_root : path)
    (ext_index : gmap string string) (kw : params) : M W (option bool) :=
  let file_ext := lower (suffix file) in
  let cat := ext_index !! file_ext in
  match (match cat with
         | None => if skip_unknown kw then None else Some "Others"
         | Some c => Some c
         end) with
  | None => ret None
  | Some cat =>
      let dest_file := pjoin (pjoin dest_root cat) (name file) in
      do final_dest <- resolve_conflict fuel dest_file (conflict_policy kw);
      match final_dest with
      | None => ret None
      | Some final_dest =>
          do ok <- do_transfer file final_dest (action kw) (dry_run kw);
          ret (Some ok)
      end
  end.

Definition organize_by_name (fuel : nat) (file dest_root : path)
    (ext_index : gmap string string) (kw : params) : M W (option bool) :=
  let dest_file := pjoin (pjoin dest_root (stem file)) (name file) in
  do final_dest <- resolve_conflict fuel dest_file (conflict_policy kw);
  match final_dest with
  | None => ret None
  | Some final_dest =>
      do ok <- do_transfer file final_dest (action kw) (dry_run kw);
      ret (Some ok)
  end.

(** [date.strftime('%B')] *)
Definition month_name (m : nat) : string :=
  nth (m - 1)
    ["January"; "February"; "March"; "April"; "May"; "June"; "July";
     "August"; "September"; "October"; "November"; "December"] "".

Definition organize_by_date (fuel : nat) (file dest_root : path)
    (ext_index : gmap string string) (kw : params) : M W (option bool) :=
  try_except
    (do date <- query (os_stat_mtime file);
     let dest_dir :=
       pjoin (pjoin dest_root (str_of_nat (year date)))
             (fmt_02d (month date) +:+ "-" +:+ month_name (month date)) in
     let dest_file := pjoin dest_dir (name file) in
     do final_dest <- resolve_conflict fuel dest_file (conflict_policy kw);
     match final_dest with
     | None => ret None
     | Some final_dest =>
         do ok <- do_transfer file final_dest (action kw) (dry_run kw);
         ret (Some ok)
     end)
    is_Exception (λ _, ret (Some false)).

Definition organize_by_day (fuel : nat) (file dest_root : path)
    (ext_index : gmap string string) (kw : params) : M W (option bool) :=
  try_except
    (do date <- query (os_stat_mtime file);
     let dest_dir :=
       pjoin (pjoin (pjoin dest_root (str_of_nat (year date)))
                    (fmt_02d (month date)))
             (fmt_02d (day date)) in
     let dest_file := pjoin dest_dir (name file) in
     do final_dest <- resolve_conflict fuel dest_file (conflict_policy kw);
     match final_dest with
     | None => ret None
     | Some final_dest =>
         do ok <- do_transfer file final_dest (action kw) (dry_run kw);
         ret (Some ok)
     end)
    is_Exception (λ _, ret (Some false)).

(** [st_size / (1024 * 1024)].  Python divides two integers into the
    nearest float; below 2^53 bytes the quotient by 2^20 is a float itself,
    and above it both the quotient and its rounding exceed 100, so the two
    comparisons of [organize_by_size] give on floats what they give on
    rationals. *)
Definition size_mb (st_size : Z) : Q :=
  (inject_Z st_size / inject_Z (1024 * 1024))%Q.

Definition size_category (st_size : Z) : string :=
  if Qlt_le_dec (size_mb st_size) 1 then "Small (Under 1MB)"
  else if Qlt_le_dec (size_mb st_size) 100 then "Medium (1-100MB)"
  else "Large (Over 100MB)".

(** The path handed to [resolve_conflict] by [organize_by_size]. *)
Definition size_dest_file (st_size : Z) (file dest_root : path) : path :=
  pjoin (pjoin dest_root (size_category st_size)) (name file).

Definition organize_by_size (fuel : nat) (file dest_root : path)
    (ext_index : gmap string string) (kw : params) : M W (option bool) :=
  try_except
    (do st_size <- query (os_stat_size file);
     let cat := size_category st_size in
     let dest_file := pjoin (pjoin dest_root cat) (name file) in
     do final_dest <- resolve_conflict fuel dest_file (conflict_policy kw);
     match final_dest with
     | None => ret None
     | Some final_dest =>
         do ok <- do_transfer file final_dest (action kw) (dry_run kw);
         ret (Some ok)
     end)
    is_Exception (λ _, ret (Some false)).

(** [str.isalpha()] of an ASCII string. *)
Fixpoint all_alpha (s : string) : bool :=
  match s with
  | EmptyString => true
  | String c s' => ascii_isalpha c && all_alpha s'
  end.

Definition isalpha (s : string) : bool :=
  match s with EmptyString => false | _ => all_alpha s end.

(** Every byte of the string is an ASCII character. *)
Fixpoint all_ascii (s : string) : bool :=
  match s with
  | EmptyString => true
  | String c s' => byte_in 0 127 c && all_ascii s'
  end.

(** [ch.upper()] for one character: by the ASCII table for an ASCII
    character, by the tables of the interpreter for another one; a lone
    surrogate has no case. *)
Definition char_upper (ch : string) : string :=
  match utf8_char_len ch with
  | Some 1 => upper ch
  | Some _ => uni_upper ch
  | None => ch
  end.

(** [s.isalpha()]: by the ASCII table for an ASCII string, by the tables
    of the interpreter for another well-formed one; a lone surrogate is
    no letter. *)
Definition str_isalpha (s : string) : bool :=
  if all_ascii s then isalpha s
  else if utf8_text s then uni_isalpha s
  else false.

(** The folder of [organize_by_first_letter], its first two lines. *)
Definition first_letter_category (file : path) : string :=
  let first_letter :=
    match stem file with
    | EmptyString => "#"
    | _ => char_upper (first_char (stem file))
    end in
  if str_isalpha first_letter then first_letter else "#".

Definition organize_by_first_letter (fuel : nat) (file dest_root : path)
    (ext_index : gmap string string) (kw : params) : M W (option bool) :=
  let cat := first_letter_category file in
  let dest_file := pjoin (pjoin dest_root cat) (name file) in
  do final_dest <- resolve_conflict fuel dest_file (conflict_policy kw);
  match final_dest with
  | None => ret None
  | Some final_dest =>
      do ok <- do_transfer file final_dest (action kw) (dry_run kw);
      ret (Some ok)
  end.

Definition organizer : Type :=
  nat → path → path → gmap string string → params → M W (option bool).

(** [ORGANIZERS.get(mode)] *)
Definition ORGANIZERS (mode : string) : option organizer :=
  if String.eqb mode "type" then Some organize_by_type
  else if String.eqb mode "name" then Some organize_by_name
  else if String.eqb mode "date" then Some organize_by_date
  else if String.eqb mode "day" then Some organize_by_day
  else if String.eqb mode "size" then Some organize_by_size
  else if String.eqb mode "first_letter" then Some organize_by_first_letter
  else None.

(** ** The undo log *)

Definition clear_undo_log : M W unit :=
  do there <- observe (path_exists UNDO_LOG_FILE);
  if there then
    try_except (prim (EvUnlink UNDO_LOG_FILE) (os_unlink UNDO_LOG_FILE))
               is_OSError (λ _, ret tt)
  else ret tt.

Record undo_stats := { u_total : nat; u_succeeded : nat; u_failed : nat }.

(** [Path(s)] for a string written by [path_str]. *)
Definition path_of_str (s : string) : path :=
  filter (λ c, c ≠ "") (split "/" s).

(** The [try] statement in the loop of [perform_undo]: [Some true] when
    the line adds to [succeeded], [Some false] when it adds to [failed],
    and [None] when it adds to [failed] and leaves the round with
    [continue], before the progress callback. *)
Definition undo_line (line : string) : M W (option bool) :=
  try_except
    (let parts := split "|" (strip line) in
     match parts with
     | [action; original_src; final_dst] =>
         let original_src := path_of_str original_src in
         let final_dst := path_of_str final_dst in
         do there <- observe (path_exists final_dst);
         if there then
           run prim (EvMkdir (parent original_src))
                    (os_mkdir_parents (parent original_src));
           run prim (EvMove final_dst original_src)
                    (os_move final_dst original_src);
           ret (Some true)
         else ret (Some false)
     | _ => ret None
     end)
    is_Exception (λ _, ret (Some false)).

(** A call of the undo callback [cb], when there is one. *)
Definition call_undo_progress (cb : option (nat → nat → option exn))
    (idx total : nat) : M W unit :=
  match cb with
  | Some f =>
      run emit (EvUndoProgress idx total);
      match f idx total with Some e => raise e | None => ret tt end
  | None => ret tt
  end.

(** The loop over [enumerate(reversed(lines), start=1)], from position
    [idx] on, over the lines [ls] still to come. *)
Fixpoint undo_loop (cb : option (nat → nat → option exn)) (total idx : nat)
    (ls : list string) (succeeded failed : nat) : M W (nat * nat) :=
  match ls with
  | [] => ret (succeeded, failed)
  | line :: rest =>
      do r <- undo_line line;
      match r with
      | None => undo_loop cb total (S idx) rest succeeded (S failed)
      | Some ok =>
          let succeeded' := if ok then S succeeded else succeeded in
          let failed' := if ok then failed else S failed in
          run call_undo_progress cb idx total;
          undo_loop cb total (S idx) rest succeeded' failed'
      end
  end.

Definition perform_undo (on_progress : option (nat → nat → option exn))
    : M W undo_stats :=
  do there <- observe (path_exists UNDO_LOG_FILE);
  if negb there then
    run call_undo_progress on_progress 0 0;
    ret {| u_total := 0; u_succeeded := 0; u_failed := 0 |}
  else
    do lines <- try_except
                  (do ls <- call (EvReadLines UNDO_LOG_FILE)
                                 (os_readlines UNDO_LOG_FILE);
                   ret (Some ls))
                  is_OSError (λ _, ret None);
    match lines with
    | None => ret {| u_total := 0; u_succeeded := 0; u_failed := 0 |}
    | Some lines =>
        let total := length lines in
        do sf <- undo_loop on_progress total 1 (rev lines) 0 0;
        run clear_undo_log;
        ret {| u_total := total; u_succeeded := sf.1; u_failed := sf.2 |}
    end.

(** ** [validate_paths] and [process_directory] *)

Definition validate_paths (source dest : path) : M W (bool * string) :=
  observe (λ w,
    match List.find (λ sys_dir,
                  path_exists sys_dir w
                  && (bool_decide (dest = sys_dir) || in_parents sys_dir dest))
               system_dirs with
    | Some sys_dir =>
        (false, "Cannot organize into system directory: " +:+ path_str sys_dir)
    | None =>
        if bool_decide (source = dest) then
          (false, "Source and destination cannot be the same.")
        else if negb (path_exists source w) then
          (false, "Source directory does not exist: " +:+ path_str source)
        else if negb (path_is_dir source w) then
          (false, "Source is not a directory: " +:+ path_str source)
        else (true, "")
    end).

Record run_stats := {
  total : nat;
  processed : nat;
  succeeded : nat;
  failed : nat;
  skipped : nat;
  error : option string;
}.

Definition error_stats (error_msg : string) : run_stats :=
  {| total := 0; processed := 0; succeeded := 0; failed := 0; skipped := 0;
     error := Some error_msg |}.

(** The counters [processed], [succeeded], [failed], [skipped]. *)
Record counters := { c_processed : nat; c_succeeded : nat; c_failed : nat;
                     c_skipped : nat }.

Definition count (c : counters) (result : option bool) : counters :=
  {| c_processed := S (c_processed c);
     c_succeeded := match result with
                    | Some true => S (c_succeeded c) | _ => c_succeeded c end;
     c_failed := match result with
                 | Some false => S (c_failed c) | _ => c_failed c end;
     c_skipped := match result with
                  | None => S (c_skipped c) | _ => c_skipped c end |}.

Definition is_cancelled (kw : params) (idx : nat) : bool :=
  match cancel_event kw with
  | Some is_set => is_set idx
  | None => false
  end.

Definition call_run_progress (kw : params) (idx total : nat) (item : path)
    (result : option bool) : M W unit :=
  match on_progress kw with
  | Some f =>
      run emit (EvRunProgress idx total item result);
      match f idx total item result with Some e => raise e | None => ret tt end
  | None => ret tt
  end.

(** The loop over [enumerate(files, start=1)], from position [idx] on. *)
Fixpoint run_loop (organizer_func : organizer) (fuel : nat) (kw : params)
    (ext_index : gmap string string) (total idx : nat) (items : list path)
    (c : counters) : M W counters :=
  match items with
  | [] => ret c
  | item :: rest =>
      if is_cancelled kw idx then ret c
      else
        do result <- organizer_func fuel item (dest kw) ext_index kw;
        let c' := count c result in
        run call_run_progress kw idx total item result;
        run_loop organizer_func fuel kw ext_index total (S idx) rest c'
  end.

Definition process_directory (fuel : nat) (kw : params) : M W run_stats :=
  do v <- validate_paths (source kw) (dest kw);
  if negb v.1 then ret (error_stats v.2)
  else
    match ORGANIZERS (mode kw) with
    | None => ret (error_stats ("Unknown organization mode: " +:+ mode kw))
    | Some organizer_func =>
        do listed <- ask (os_list_files (source kw) (recursive kw)
                                        (Some (dest kw)));
        let files := default listed (files kw) in
        let total := length files in
        if (total =? 0)%nat then
          ret {| total := 0; processed := 0; succeeded := 0; failed := 0;
                 skipped := 0; error := None |}
        else
          do loaded <- call EvLoadCategories os_load_categories;
          let categories := default loaded (categories_arg kw) in
          let ext_index :=
            if String.eqb (mode kw) "type"
            then (build_ext_index categories).1 else ∅ in
          do c <- run_loop organizer_func fuel kw ext_index total 1 files
                     {| c_processed := 0; c_succeeded := 0; c_failed := 0;
                        c_skipped := 0 |};
          ret {| total := total; processed := c_processed c;
                 succeeded := c_succeeded c; failed := c_failed c;
                 skipped := c_skipped c; error := None |}
    end.

End Engine.

(** ** Vocabulary of the statements *)

Section Vocabulary.
Context {W : Type} `{FileSystem W}.

Definition is_good {A} (r : res A) : bool :=
  match r with Good _ => true | Bad _ => false end.

(** The state after the [mkdir] with which [do_transfer] begins. *)
Definition after_mkdir (dst : path) (s : state W) : state W :=
  St (os_mkdir_parents (parent dst) (world s)).2
     (trace s ++ [EvMkdir (parent dst)]).

Definition mkdir_ok (dst : path) (s : state W) : bool :=
  is_good (os_mkdir_parents (parent dst) (world s)).1.

Definition known_policy (conflict_policy : string) : Prop :=
  conflict_policy = "skip" ∨ conflict_policy = "overwrite"
  ∨ conflict_policy = "rename".

(** A callback that returns normally at every call. *)
Definition quiet (cb : option (nat → nat → option exn)) : Prop :=
  ∀ f, cb = Some f → ∀ idx total, f idx total = None.

(** The lines of an undo pass, one step for each: [undo_run cb total idx
    ls s oks s'] runs the body of the loop of [perform_undo] on the lines
    [ls] in turn, numbered from [idx], and collects in [oks] whether each
    line was restored: a line that is no record is a failure and skips
    the callback, every other line is followed by it. *)
Inductive undo_run (cb : option (nat → nat → option exn)) (total : nat)
    : nat → list string → state W → list bool → state W → Prop :=
| undo_run_nil idx s : undo_run cb total idx [] s [] s
| undo_run_invalid idx line rest s s1 oks s3 :
    undo_line line s = (Ret None, s1) →
    undo_run cb total (S idx) rest s1 oks s3 →
    undo_run cb total idx (line :: rest) s (false :: oks) s3
| undo_run_record idx line rest s ok s1 s2 oks s3 :
    undo_line line s = (Ret (Some ok), s1) →
    call_undo_progress cb idx total s1 = (Ret tt, s2) →
    undo_run cb total (S idx) rest s2 oks s3 →
    undo_run cb total idx (line :: rest) s (ok :: oks) s3.

(** How many of the lines ended as [b]. *)
Definition tally (b : bool) (oks : list bool) : nat :=
  length (List.filter (Bool.eqb b) oks).

(** A line of the log with its three fields. *)
Definition well_formed (line action original_src final_dst : string)
    : Prop :=
  split "|" (strip line) = [action; original_src; final_dst].

(** The counters of a run add up. *)
Definition balanced (c : counters) : Prop :=
  c_processed c = c_succeeded c + c_failed c + c_skipped c.

(** A run callback that returns normally at every call. *)
Definition quiet_run (kw : params) : Prop :=
  ∀ f, on_progress kw = Some f →
       ∀ idx total item result, f idx total item result = None.

(** The policies that never probe for a free name. *)
Definition loop_free_policy (kw : params) : Prop :=
  conflict_policy kw = "skip" ∨ conflict_policy kw = "overwrite".

(** Conflict resolution followed by the transfer, the common end of the
    six classifiers. *)
Definition resolve_and_transfer (fuel : nat) (file dest_file : path)
    (kw : params) : M W (option bool) :=
  do final_dest <- resolve_conflict fuel dest_file (conflict_policy kw);
  match final_dest with
  | None => ret None
  | Some final_dest =>
      do ok <- do_transfer file final_dest (action kw) (dry_run kw);
      ret (Some ok)
  end.

(** The (category, extension) pairs of a category map in the order in
    which [build_ext_index] meets them. *)
Definition occurrences (cats : categories) : list (string * string) :=
  flat_map (λ ce, map (λ e, (ce.1, e)) ce.2) cats.

(** The pair lists a non-empty extension that is [k] in lower case. *)
Definition lists_ext (k : string) (ce : string * string) : bool :=
  bool_decide (ce.2 ≠ "") && String.eqb (lower ce.2) k.

(** The category of the first pair that lists [k]. *)
Definition first_cat (k : string) (occs : list (string * string))
    : option string :=
  fst <$> List.find (lists_ext k) occs.

(** The duplicates to report for the pairs [occs] that come after the
    pairs [before]: one for every pair whose extension was listed
    before, naming the category that listed it first. *)
Fixpoint reported (before occs : list (string * string)) : list string :=
  match occs with
  | [] => []
  | ce :: rest =>
      (if bool_decide (ce.2 ≠ "") then
         match first_cat (lower ce.2) before with
         | Some first => [dup_msg (lower ce.2) first ce.1]
         | None => []
         end
       else [])
      ++ reported (before ++ [ce]) rest
  end.

(** The steps a run over the files [items] may take: the loading of the
    categories; the [mkdir] of a transfer; the move or the copy of one
    of the files, whichever the action of the run is, and the append to
    the undo log of the record of one of the files, none of the three in
    a dry run; the removal of a conflicting destination, under the
    overwrite policy only; and the call of the run callback.  The log is
    not read, and nothing is said of where a path leads. *)
Definition run_step (kw : params) (items : list path) (ev : event) : Prop :=
  match ev with
  | EvLoadCategories | EvMkdir _ | EvRunProgress _ _ _ _ => True
  | EvMove src _ => src ∈ items ∧ action kw = "move" ∧ dry_run kw = false
  | EvCopy src _ => src ∈ items ∧ action kw = "copy" ∧ dry_run kw = false
  | EvRmtree _ | EvUnlink _ => conflict_policy kw = "overwrite"
  | EvAppend p line =>
      p = UNDO_LOG_FILE ∧ dry_run kw = false
      ∧ ∃ src dst, src ∈ items ∧ line = undo_record (action kw) src dst
  | EvReadLines _ | EvUndoProgress _ _ => False
  end.


(** [m] adds to the trace only steps that satisfy [P], and a value it
    returns satisfies [Q]. *)
Definition spec {A} (P : event → Prop) (Q : A → Prop) (m : M W A) : Prop :=
  ∀ s, (∃ evs, trace (m s).2 = trace s ++ evs ∧ Forall P evs)
       ∧ (∀ a, (m s).1 = Ret a → Q a).

(** The files a run works on: [kwargs.get('files', list_files(...))]. *)
Definition files_of (kw : params) (s : state W) : list path :=
  default (match os_list_files (source kw) (recursive kw) (Some (dest kw))
                   (world s) with
           | Fine listed => listed
           | Fails _ => []
           end)
          (files kw).

End Vocabulary.

(** ** An in-memory file system

    A small instance of [FileSystem], used to run the engine on concrete
    trees.  A world maps each existing path to a regular file, a text
    with its lines or a file that is no text, or to a directory; the
    root [[]] is a directory.  Only regular files are moved and copied,
    and [..] is a name like another. *)

Module MemFS.

(** A regular file is a text or a file whose bytes are no UTF-8 text. *)
Inductive node := File (content : string) | Binary | Dir.

Abbreviation memfs := (gmap path node).

Definition lookup_node (p : path) (w : memfs) : option node :=
  match p with [] => Some Dir | _ => w !! p end.

Definition mem_exists (p : path) (w : memfs) : bool :=
  match lookup_node p w with Some _ => true | None => false end.

Definition mem_is_dir (p : path) (w : memfs) : bool :=
  match lookup_node p w with Some Dir => true | _ => false end.

(** The regular file at a path, if there is one. *)
Definition lookup_file (p : path) (w : memfs) : option node :=
  match lookup_node p w with
  | Some Dir | None => None
  | Some n => Some n
  end.

(** The non-empty prefixes of a path, shortest first. *)
Fixpoint ancestors_from (base p : path) : list path :=
  match p with
  | [] => []
  | c :: p' => (base ++ [c]) :: ancestors_from (base ++ [c]) p'
  end.

Definition mem_mkdir_parents (p : path) (w : memfs) : res unit * memfs :=
  let dirs := ancestors_from [] p in
  if forallb (λ d, match lookup_file d w with
                   | Some _ => false | None => true end) dirs
  then (Good tt, foldl (λ w' d, <[d := Dir]> w') w dirs)
  else (Bad OtherOSError, w).

(** Where [shutil.move] and [shutil.copy2] write: inside [dst] when it is
    a directory. *)
Definition real_dst (src dst : path) (w : memfs) : path :=
  if mem_is_dir dst w then pjoin dst (name src) else dst.

Definition mem_move (src dst : path) (w : memfs) : res unit * memfs :=
  match lookup_file src w with
  | Some n =>
      if mem_is_dir dst w then
        if mem_exists (pjoin dst (name src)) w then (Bad ShutilError, w)
        else (Good tt, <[pjoin dst (name src) := n]> (delete src w))
      else if mem_is_dir (parent dst) w then
        (Good tt, <[dst := n]> (delete src w))
      else (Bad OtherOSError, w)
  | None => (Bad OtherOSError, w)
  end.

(** Copying a file onto itself is a [SameFileError], a [shutil.Error]. *)
Definition mem_copy2 (src dst : path) (w : memfs) : res unit * memfs :=
  match lookup_file src w with
  | Some n =>
      if bool_decide (real_dst src dst w = src) then (Bad ShutilError, w)
      else if mem_is_dir (parent (real_dst src dst w)) w
              && negb (mem_is_dir (real_dst src dst w) w)
      then (Good tt, <[real_dst src dst w := n]> w)
      else (Bad OtherOSError, w)
  | None => (Bad OtherOSError, w)
  end.

Definition mem_rmtree (p : path) (w : memfs) : res unit * memfs :=
  match w !! p with
  | Some Dir =>
      (Good tt, filter (λ kv, ¬ p `prefix_of` kv.1) w)
  | _ => (Bad OtherOSError, w)
  end.

Definition mem_unlink (p : path) (w : memfs) : res unit * memfs :=
  match lookup_file p w with
  | Some _ => (Good tt, delete p w)
  | None => (Bad OtherOSError, w)
  end.

(** Opening for append creates a missing file; a line that is no UTF-8
    text, as a name with undecodable bytes gives one, is not written. *)
Definition mem_append (p : path) (line : string) (w : memfs)
    : answer unit * memfs :=
  match lookup_node p w with
  | Some (File c) =>
      if utf8_text line then (Fine tt, <[p := File (c +:+ line)]> w)
      else (Fails (PyError "UnicodeEncodeError"), w)
  | Some Binary =>
      if utf8_text line then (Fine tt, w)
      else (Fails (PyError "UnicodeEncodeError"), w)
  | Some Dir => (Fails (OSErr OtherOSError), w)
  | None =>
      if mem_is_dir (parent p) w then
        if utf8_text line then (Fine tt, <[p := File line]> w)
        else (Fails (PyError "UnicodeEncodeError"), <[p := File ""]> w)
      else (Fails (OSErr OtherOSError), w)
  end.

Definition mem_readlines (p : path) (w : memfs)
    : answer (list string) * memfs :=
  match lookup_node p w with
  | Some (File c) => (Fine (readlines c), w)
  | Some Binary => (Fails (PyError "UnicodeDecodeError"), w)
  | _ => (Fails (OSErr OtherOSError), w)
  end.

Definition mem_stat_size (p : path) (w : memfs) : res Z :=
  match lookup_node p w with
  | Some (File c) => Good (Z.of_nat (String.length c))
  | Some Binary => Good 1%Z
  | Some Dir => Good 4096%Z
  | None => Bad OtherOSError
  end.

Definition mem_stat_mtime (p : path) (w : memfs) : res datetime :=
  match lookup_node p w with
  | Some _ => Good {| year := 2023; month := 10; day := 26 |}
  | None => Bad OtherOSError
  end.

Definition is_listed (source : path) (recursive : bool)
    (exclude_dir : option path) (kv : path * node) : bool :=
  match kv.2 with Dir => false | _ => true end
  && (if recursive then in_parents source kv.1
      else bool_decide (parent kv.1 = source) && bool_decide (kv.1 ≠ []))
  && match exclude_dir with
     | Some ex => negb (bool_decide (ex `prefix_of` kv.1))
     | None => true
     end.

Definition mem_list_files (source : path) (recursive : bool)
    (exclude_dir : option path) (w : memfs) : answer (list path) :=
  Fine
    (List.filter (is_listed source recursive exclude_dir)
       (map_to_list w)).*1.

Definition DEFAULT_CATEGORIES : categories :=
  [("Images", [".jpg"; ".jpeg"; ".png"; ".gif"; ".bmp"; ".tiff"; ".webp";
               ".heic"; ".svg"; ".ico"]);
   ("Videos", [".mp4"; ".mkv"; ".avi"; ".mov"; ".wmv"; ".flv"; ".webm";
               ".m4v"; ".mpeg"; ".mpg"]);
   ("Audio", [".mp3"; ".wav"; ".aac"; ".ogg"; ".flac"; ".m4a"; ".wma";
              ".opus"]);
   ("Documents", [".pdf"; ".docx"; ".doc"; ".txt"; ".pptx"; ".ppt"; ".xlsx";
                  ".xls"; ".odt"; ".csv"; ".rtf"; ".tex"]);
   ("Archives", [".zip"; ".rar"; ".7z"; ".tar"; ".gz"; ".bz2"; ".xz";
                 ".iso"]);
   ("Code", [".py"; ".js"; ".html"; ".css"; ".java"; ".cpp"; ".c"; ".h";
             ".json"; ".xml"; ".yaml"; ".yml"]);
   ("Executables", [".exe"; ".msi"; ".apk"; ".appimage"; ".dmg"; ".deb";
                    ".rpm"]);
   ("Others", [])].

Definition CATEGORIES_FILE : path := ["categories.json"].

(** The store of the sample holds the defaults or no JSON at all: a
    missing [categories.json] is created with the defaults, a text or a
    directory in its place gives the defaults back, and a file that is
    no UTF-8 text raises. *)
Definition mem_load_categories (w : memfs) : answer categories * memfs :=
  match lookup_node CATEGORIES_FILE w with
  | None => (Fine DEFAULT_CATEGORIES, <[CATEGORIES_FILE := File "{}"]> w)
  | Some Binary => (Fails (PyError "UnicodeDecodeError"), w)
  | Some _ => (Fine DEFAULT_CATEGORIES, w)
  end.

(** The Unicode tables of the sample cover Latin-1: the letters from
    U+00C0 to U+00FF, which are all of that range but the two signs
    U+00D7 and U+00F7, and the three letters U+00AA, U+00B5 and U+00BA.
    The small letters from U+00E0 to U+00FE have their capital 32 places
    before them, sharp s becomes [SS], U+00FF becomes U+0178 and the
    micro sign the Greek capital U+039C.  Other characters are taken to
    have no case and to be no letters. *)
Definition mem_uni_upper (ch : string) : string :=
  match ch with
  | String c0 (String c1 EmptyString) =>
      if byte_in 195 195 c0 then
        if byte_in 159 159 c1 then "SS"
        else if byte_in 191 191 c1 then
          String (ascii_of_nat 197) (String (ascii_of_nat 184) EmptyString)
        else if byte_in 160 190 c1 && negb (byte_in 183 183 c1) then
          String c0 (String (ascii_of_nat (nat_of_ascii c1 - 32)) EmptyString)
        else ch
      else if byte_in 194 194 c0 && byte_in 181 181 c1 then
        String (ascii_of_nat 206) (String (ascii_of_nat 156) EmptyString)
      else ch
  | _ => ch
  end.

Fixpoint mem_uni_isalpha_from (fuel : nat) (s : string) : bool :=
  match fuel, s with
  | _, EmptyString => true
  | O, _ => false
  | S fuel', String c0 EmptyString => ascii_isalpha c0
  | S fuel', String c0 (String c1 s') =>
      if ascii_isalpha c0 then mem_uni_isalpha_from fuel' (String c1 s')
      else if byte_in 195 195 c0 then
        byte_in 128 191 c1 && negb (byte_in 151 151 c1)
        && negb (byte_in 183 183 c1) && mem_uni_isalpha_from fuel' s'
      else if byte_in 194 194 c0 then
        (byte_in 170 170 c1 || byte_in 181 181 c1 || byte_in 186 186 c1)
        && mem_uni_isalpha_from fuel' s'
      else false
  end.

Definition mem_uni_isalpha (s : string) : bool :=
  match s with
  | EmptyString => false
  | _ => mem_uni_isalpha_from (String.length s) s
  end.

#[export] Instance memfs_FileSystem : FileSystem memfs := {|
  cwd := [];
  path_exists := mem_exists;
  path_is_dir := mem_is_dir;
  os_mkdir_parents := mem_mkdir_parents;
  os_move := mem_move;
  os_copy2 := mem_copy2;
  os_rmtree := mem_rmtree;
  os_unlink := mem_unlink;
  os_append := mem_append;
  os_readlines := mem_readlines;
  os_stat_size := mem_stat_size;
  os_stat_mtime := mem_stat_mtime;
  os_list_files := mem_list_files;
  os_load_categories := mem_load_categories;
  system_dirs := [["usr"]; ["bin"]; ["sbin"]; ["etc"]];
  uni_upper := mem_uni_upper;
  uni_isalpha := mem_uni_isalpha;
|}.

(** A state with an empty trace. *)
Definition start (w : memfs) : state memfs := St w [].

(** *** Sample worlds *)

Definition old_record : string := "MOVE|old/a.txt|kept/a.txt" +:+ nl.

(** A source directory [d] with three files, and an undo log that holds
    one record of an earlier run. *)
Definition demo : memfs :=
  {[ ["d"] := Dir;
     ["d"; "f.txt"] := File "hello";
     ["d"; "document.pdf"] := File "first";
     ["d"; "document (1).pdf"] := File "second";
     ["undo.log"] := File old_record ]}.

(** An undo log of three lines, oldest first: a record whose
    destination [d/f.txt] exists, a record whose destination is gone and
    a line that is no record. *)
Definition undo_demo : memfs :=
  {[ ["d"] := Dir;
     ["d"; "f.txt"] := File "hello";
     ["undo.log"] :=
       File ("MOVE|src/f.txt|d/f.txt" +:+ nl
             +:+ "MOVE|src/gone.txt|d/gone.txt" +:+ nl
             +:+ "no record" +:+ nl) ]}.



(** A run by type that moves [d/f.txt] into [out]. *)
Definition demo_run : params :=
  {| source := ["d"]; dest := ["out"]; mode := "type"; action := "move";
     recursive := false; conflict_policy := "skip"; dry_run := false;
     skip_unknown := false; files := Some [["d"; "f.txt"]];
     categories_arg := Some DEFAULT_CATEGORIES; cancel_event := None;
     on_progress := None |}.

End MemFS.

(** ** Vocabulary for the extension index *)

(** The pair lists a non-empty extension. *)
Definition listed (ce : string * string) : bool :=
  bool_decide (ce.2 ≠ "").

(** The keys the pairs give rise to, in order and with repetitions. *)
Definition ext_keys (occs : list (string * string)) : list string :=
  (λ ce, lower ce.2) <$> List.filter listed occs.

(** Every extension of the map is non-empty and in lower case, as the
    category editor writes them. *)
Definition normalised (cats : categories) : Prop :=
  ∀ ce, ce ∈ occurrences cats → ce.2 ≠ "" ∧ lower ce.2 = ce.2.

(** ** The bulk entry of extensions ([category_editor.py])

    [BulkAddDialog.get_extensions] turns the text of the dialog into the
    list of extensions to add. *)

(** [str.replace(old, new)] for single characters. *)
Definition replace_char (old new : ascii) (s : string) : string :=
  str_map (λ c, if Ascii.eqb c old then new else c) s.

(** [ext.startswith('.')] *)
Definition startswith_dot (s : string) : bool :=
  match s with
  | String c _ => Ascii.eqb c "."%char
  | EmptyString => false
  end.

(** The body of the loop of [get_extensions], for one line. *)
Definition add_line (extensions : list string) (line : string)
    : list string :=
  let ext := lower (strip line) in
  if bool_decide (ext ≠ "") then
    let ext := if startswith_dot ext then ext else "." +:+ ext in
    if bool_decide (ext ∈ extensions) then extensions
    else extensions ++ [ext]
  else extensions.

Definition get_extensions (text : string) : list string :=
  let text :=
    replace_char ";" (ascii_of_nat 10)
      (replace_char "," (ascii_of_nat 10) text) in
  foldl add_line [] (split (ascii_of_nat 10) text).

(** What [get_extensions] guarantees of an extension. *)
Definition tidy (ext : string) : Prop :=
  startswith_dot ext = true ∧ lower ext = ext.

(** ** Vocabulary for transfers *)

Section TransferVocabulary.
Context {W : Type} `{FileSystem W}.

(** The primitive a real transfer runs for the actions move and copy,
    and the step it leaves in the trace. *)
Definition os_transfer (action : string) (src dst : path) (w : W)
    : res unit * W :=
  if String.eqb action "move" then os_move src dst w
  else os_copy2 src dst w.

Definition transfer_event (action : string) (src dst : path) : event :=
  if String.eqb action "move" then EvMove src dst else EvCopy src dst.

(** The append of a record leaves [log_undo_operation] without an
    exception: it returns, or it raises an [OSError], which is caught
    there. *)
Definition append_passes (r : answer unit) : bool :=
  match r with
  | Fine _ => true
  | Fails e => is_OSError e
  end.

End TransferVocabulary.

(** ** Vocabulary for the lines of the undo log *)

(** How often the character occurs in the string. *)
Fixpoint count_char (c : ascii) (s : string) : nat :=
  match s with
  | EmptyString => 0
  | String c' s' => (if Ascii.eqb c' c then 1 else 0) + count_char c s'
  end.

(** The string begins, or ends, with a character that [strip] removes. *)
Definition starts_space (s : string) : bool :=
  match s with
  | String c _ => ascii_isspace c
  | EmptyString => false
  end.

Definition ends_space (s : string) : bool := starts_space (str_rev s).

(** A component that [path_str] and the log keep apart from its
    neighbours: not empty, and free of the two separators. *)
Definition plain_component (c : string) : Prop :=
  c ≠ "" ∧ count_char "/" c = 0 ∧ count_char "|" c = 0.

(** A path that a line of the log can carry. *)
Definition loggable (p : path) : Prop :=
  Forall plain_component p ∧ ends_space (name p) = false.

(** The string holds no line feed and no carriage return, so that a
    text file keeps it on one line. *)
Definition one_line (s : string) : Prop :=
  count_char LF s = 0 ∧ count_char CR s = 0.

(** A plain component that stays on one line. *)
Definition line_component (c : string) : Prop :=
  plain_component c ∧ one_line c.

(** The string ends with an ASCII character that is no white space, so
    that [str.strip] takes nothing off its end. *)
Definition ends_plain (s : string) : bool :=
  match str_rev s with
  | String c _ => byte_in 0 127 c && negb (ascii_isspace c)
  | EmptyString => false
  end.

(** A path whose record the undo log gives back as it was written. *)
Definition recordable (p : path) : Prop :=
  Forall line_component p ∧ ends_plain (name p) = true.

Section UndoLogReaders.
Context {W : Type} `{FileSystem W}.

(** [get_last_undo_destination] of [file_organizer_gui.py]: the
    destination in the last line of the undo log. *)
Definition get_last_undo_destination : M W string :=
  try_except
    (do there <- observe (path_exists UNDO_LOG_FILE);
     if negb there then ret "N/A"
     else
       do st_size <- query (os_stat_size UNDO_LOG_FILE);
       if (st_size =? 0)%Z then ret "N/A"
       else
         do lines <- call (EvReadLines UNDO_LOG_FILE)
                          (os_readlines UNDO_LOG_FILE);
         match lines with
         | [] => ret "N/A"
         | _ =>
             let last_line := strip (List.last lines "") in
             let parts := split "|" last_line in
             ret (if (length parts =? 3)%nat then List.last parts ""
                  else "N/A")
         end)
    is_Exception (λ _, ret "...").

End UndoLogReaders.

(** ** Vocabulary for dry runs *)

(** The steps of a dry run: loading the categories, making directories
    and calling the progress callback, and, when [removals] holds,
    removing a conflicting destination. *)
Definition dry_event (removals : bool) (ev : event) : Prop :=
  match ev with
  | EvLoadCategories | EvMkdir _ | EvRunProgress _ _ _ _ => True
  | EvRmtree _ | EvUnlink _ => removals = true
  | _ => False
  end.

(** ** Vocabulary for the classifiers *)

(** The paths that [organize_by_date] and [organize_by_day] hand to
    [resolve_conflict]. *)
Definition date_dest_file (date : datetime) (file dest_root : path) : path :=
  pjoin (pjoin (pjoin dest_root (str_of_nat (year date)))
               (fmt_02d (month date) +:+ "-" +:+ month_name (month date)))
        (name file).

Definition day_dest_file (date : datetime) (file dest_root : path) : path :=
  pjoin (pjoin (pjoin (pjoin dest_root (str_of_nat (year date)))
                      (fmt_02d (month date)))
               (fmt_02d (day date)))
        (name file).

Definition unknown_policy_error (conflict_policy : string) : exn :=
  ValueError ("Unknown conflict policy: " +:+ conflict_policy).

(** ** The directory walker and the category store

    [list_files] and [load_categories] of [file_organizer.py], over the
    answers of the calls they make.  In the engine they are the fields
    [os_list_files] and [os_load_categories] of the interface, the map
    of the second being taken at its declared type, a map from strings
    to sets of strings. *)

Section Walker.

(** [Path.resolve] and [Path.is_file] on the entries met, [None] when
    the call raises. *)
Variables (resolve : path → option path) (is_file : path → option bool).

(** The body of the loop of [list_files], for the entry [p]. *)
Definition visit (exclude_resolved : option path) (files : list path)
    (p : path) : list path :=
  match exclude_resolved with
  | Some exclude =>
      match resolve p with
      | Some p_resolved =>
          if bool_decide (p_resolved = exclude)
             || in_parents exclude p_resolved
          then files
          else match is_file p with
               | Some true => files ++ [p]
               | _ => files
               end
      | None => files
      end
  | None =>
      match is_file p with
      | Some true => files ++ [p]
      | _ => files
      end
  end.

(** [list_files], given the entries [pattern] that [source.rglob("*")]
    or [source.glob("*")] yields and the resolved [exclude_dir]. *)
Definition list_files (pattern : list path)
    (exclude_resolved : option path) : list path :=
  foldl (visit exclude_resolved) [] pattern.

End Walker.

(** What [open] and [json.load] give for [categories.json]: the value
    read, an error of a class that [load_categories] catches
    ([json.JSONDecodeError], [IOError]), or an exception of another
    class, as a [UnicodeDecodeError] for a file that is no UTF-8 text. *)
Inductive read_result (V : Type) :=
| Parsed (data : V)
| Caught
| Uncaught (e : exn).
Arguments Parsed {V} data.
Arguments Caught {V}.
Arguments Uncaught {V} e.

Section CategoryStore.
Context {W V S : Type}.

(** The calls of [load_categories], over the values [V] that [json.load]
    returns and the sets [S] that [set] builds:
    [CATEGORIES_FILE.exists()]; the writing of the defaults, which may
    fail with an [IOError]; the reading of the document; [data.items()],
    [None] for a value that is no object and so has no such attribute;
    [set(v)], which raises a [TypeError] for a value that cannot be
    iterated or holds a member that cannot be hashed; and the set of
    given strings, for the defaults. *)
Variables (file_exists : W → bool)
          (write_defaults : W → res unit * W)
          (read_document : W → read_result V * W)
          (items : V → option (list (string * V)))
          (set_of : V → answer S)
          (of_strings : list string → S).

(** [d[k] = v] on a dict in insertion order. *)
Fixpoint dict_set (k : string) (v : S) (d : list (string * S))
    : list (string * S) :=
  match d with
  | [] => [(k, v)]
  | (k', v') :: d' =>
      if String.eqb k k' then (k, v) :: d' else (k', v') :: dict_set k v d'
  end.

(** [{k: set(v) for k, v in data.items()}], from the members still to
    come and the dict built so far. *)
Fixpoint sets_of (members : list (string * V)) (d : list (string * S))
    : answer (list (string * S)) :=
  match members with
  | [] => Fine d
  | (k, v) :: rest =>
      match set_of v with
      | Fine set_v => sets_of rest (dict_set k set_v d)
      | Fails e => Fails e
      end
  end.

(** The exception of the first member whose set cannot be built. *)
Fixpoint first_failure (members : list (string * V)) : option exn :=
  match members with
  | [] => None
  | (_, v) :: rest =>
      match set_of v with
      | Fine _ => first_failure rest
      | Fails e => Some e
      end
  end.

(** [DEFAULT_CATEGORIES.copy()] *)
Definition default_categories : list (string * S) :=
  (λ kv, (kv.1, of_strings kv.2)) <$> MemFS.DEFAULT_CATEGORIES.

Definition load_categories (w : W) : answer (list (string * S)) * W :=
  if negb (file_exists w) then
    (Fine default_categories, (write_defaults w).2)
  else
    match read_document w with
    | (Parsed data, w') =>
        match items data with
        | None => (Fails (PyError "AttributeError"), w')
        | Some members =>
            match sets_of members [] with
            | Fine categories =>
                (Fine (if bool_decide ("Others" ∈ categories.*1)
                       then categories
                       else dict_set "Others" (of_strings []) categories),
                 w')
            | Fails e => (Fails e, w')
            end
        end
    | (Caught, w') => (Fine default_categories, w')
    | (Uncaught e, w') => (Fails e, w')
    end.

End CategoryStore.

(** The entry is one that [list_files] keeps. *)
Definition kept (resolve : path → option path)
    (is_file : path → option bool) (exclude_resolved : option path)
    (p : path) : bool :=
  match exclude_resolved with
  | Some exclude =>
      match resolve p with
      | Some p_resolved =>
          negb (bool_decide (exclude `prefix_of` p_resolved))
      | None => false
      end
  | None => true
  end
  && match is_file p with Some true => true | _ => false end.

(** *** More sample worlds *)

Module Samples.
Import MemFS.

(** The file [d/f.txt] and, under [out], the destinations that the
    classifiers by name and by size would give it, already taken. *)
Definition conflict_demo : memfs :=
  {[ ["d"] := Dir;
     ["d"; "f.txt"] := File "hello";
     ["out"] := Dir;
     ["out"; "f"] := Dir;
     ["out"; "f"; "f.txt"] := File "taken";
     ["out"; "Small (Under 1MB)"] := Dir;
     ["out"; "Small (Under 1MB)"; "f.txt"] := File "taken" ]}.

(** A run with a conflict policy that does not exist. *)
Definition bogus_run : params :=
  {| source := ["d"]; dest := ["out"]; mode := "name"; action := "move";
     recursive := false; conflict_policy := "bogus"; dry_run := false;
     skip_unknown := false; files := Some [["d"; "f.txt"]];
     categories_arg := Some DEFAULT_CATEGORIES; cancel_event := None;
     on_progress := None |}.

(** A dry run of [demo_run]. *)
Definition dry_demo_run : params :=
  {| source := ["d"]; dest := ["out"]; mode := "type"; action := "move";
     recursive := false; conflict_policy := "rename"; dry_run := true;
     skip_unknown := false; files := Some [["d"; "f.txt"]];
     categories_arg := Some DEFAULT_CATEGORIES; cancel_event := None;
     on_progress := None |}.

(** A run over three files, cancelled when the second is reached. *)
Definition cancelled_demo_run : params :=
  {| source := ["d"]; dest := ["out"]; mode := "name"; action := "copy";
     recursive := false; conflict_policy := "rename"; dry_run := false;
     skip_unknown := false;
     files := Some [["d"; "f.txt"]; ["d"; "document.pdf"];
                    ["d"; "document (1).pdf"]];
     categories_arg := None;
     cancel_event := Some (λ idx, (2 <=? idx)%nat);
     on_progress := None |}.

(** A run in a mode that does not exist. *)
Definition modeless_run : params :=
  {| source := ["d"]; dest := ["out"]; mode := "colour"; action := "move";
     recursive := false; conflict_policy := "skip"; dry_run := false;
     skip_unknown := false; files := None; categories_arg := None;
     cancel_event := None; on_progress := None |}.

(** The name [eclair.txt] with an acute accent on its first letter: in
    UTF-8, where the letter is the two bytes 195 and 169, and in
    Latin-1, where it is the one byte 233, which is no UTF-8 text.  The
    capital of the letter is the two bytes 195 and 137. *)
Definition utf8_name : string :=
  String (ascii_of_nat 195) (String (ascii_of_nat 169) "clair.txt").

Definition latin1_name : string :=
  String (ascii_of_nat 233) "clair.txt".

Definition capital_e_acute : string :=
  String (ascii_of_nat 195) (String (ascii_of_nat 137) "").

(** A source directory with one file under each of the two names. *)
Definition accents_demo : memfs :=
  {[ ["d"] := Dir;
     ["d"; utf8_name] := File "one";
     ["d"; latin1_name] := File "two" ]}.

(** The JSON values of the sample documents: [null], arrays of strings
    and objects, an object with its members in the order of the
    document. *)
Inductive json :=
| JNull
| JStrings (elements : list string)
| JObject (members : json_members)
with json_members :=
| no_more
| member (k : string) (v : json) (rest : json_members).

Fixpoint members_list (members : json_members) : list (string * json) :=
  match members with
  | no_more => []
  | member k v rest => (k, v) :: members_list rest
  end.

(** [data.items()] *)
Definition json_items (data : json) : option (list (string * json)) :=
  match data with
  | JObject members => Some (members_list members)
  | _ => None
  end.

(** [set(v)], a set being listed without repetitions: the strings of an
    array, the keys of an object, and a [TypeError] for [null]. *)
Definition json_set_of (v : json) : answer (list string) :=
  match v with
  | JNull => Fails (PyError "TypeError")
  | JStrings elements => Fine (remove_dups elements)
  | JObject members => Fine (remove_dups (members_list members).*1)
  end.

(** The store of the samples: what reading [categories.json] gives, and
    [None] when the file is missing. *)
Definition store : Type := option (read_result json).

Definition store_exists (w : store) : bool :=
  match w with Some _ => true | None => false end.

Definition store_write (w : store) : res unit * store :=
  (Good tt,
   Some (Parsed (JObject (foldr (λ kv rest, member kv.1 (JStrings kv.2) rest)
                                no_more DEFAULT_CATEGORIES)))).

Definition store_read (w : store) : read_result json * store :=
  (default Caught w, w).

Definition sample_load_categories (w : store)
    : answer categories * store :=
  load_categories store_exists store_write store_read json_items
    json_set_of (λ l, l) w.

End Samples.

(** * Properties *)

(** ** The size classifier *)

Section SizeClassifier.
Context {W : Type} `{FileSystem W}.

Lemma size_mb_lt (st_size k : Z) :
  (size_mb st_size < inject_Z k)%Q ↔ (st_size < k * 1048576)%Z.
Proof.
  unfold size_mb, Qlt, Qdiv, Qmult, Qinv, inject_Z. simpl. lia.
Qed.

Lemma size_mb_ge (st_size k : Z) :
  (inject_Z k <= size_mb st_size)%Q ↔ (k * 1048576 <= st_size)%Z.
Proof.
  unfold size_mb, Qle, Qdiv, Qmult, Qinv, inject_Z. simpl. lia.
Qed.

Lemma size_category_cases (st_size : Z) :
  size_category st_size =
    if (st_size <? 1048576)%Z then "Small (Under 1MB)"
    else if (st_size <? 104857600)%Z then "Medium (1-100MB)"
    else "Large (Over 100MB)".
Proof.
  unfold size_category.
  destruct (Qlt_le_dec (size_mb st_size) 1) as [H1|H1].
  - apply (size_mb_lt st_size 1) in H1.
    destruct (Z.ltb_spec st_size 1048576); [done | lia].
  - apply (size_mb_ge st_size 1) in H1.
    destruct (Z.ltb_spec st_size 1048576); [lia |].
    destruct (Qlt_le_dec (size_mb st_size) 100) as [H2|H2].
    + apply (size_mb_lt st_size 100) in H2.
      destruct (Z.ltb_spec st_size 104857600); [done | lia].
    + apply (size_mb_ge st_size 100) in H2.
      destruct (Z.ltb_spec st_size 104857600); [lia | done].
Qed.

End SizeClassifier.

(** ** The transfer executor *)

Section Transfer.
Context {W : Type} `{FileSystem W}.

Ltac step_mkdir dst s :=
  unfold do_transfer, after_mkdir, mkdir_ok, try_except, bind, prim, raise,
    ret;
  destruct (os_mkdir_parents (parent dst) (world s)) as [[[]|e] w'];
  simpl; [| by destruct e].

(** C1 (as the code has it): a dry run of [do_transfer] performs exactly
    one file-system operation, the creation of the parent directories of
    the destination; it moves and copies nothing, appends nothing to the
    undo log and never raises; it returns success exactly when that
    [mkdir] succeeds. *)
Theorem do_transfer_dry_run (src dst : path) (action : string)
    (s : state W) :
  do_transfer src dst action true s
  = (Ret (mkdir_ok dst s), after_mkdir dst s).
Proof. step_mkdir dst s. done. Qed.

(** C3 (where the code departs from the claim): for an action other
    than move and copy [do_transfer] raises nothing.  Its [ValueError]
    is raised inside the function's own [try] and caught by its
    [except Exception]: after the [mkdir] of the destination's parent, a
    real run returns failure, and a dry run returns success without
    looking at the action; nothing is moved, copied or logged. *)
Theorem do_transfer_unknown_action (src dst : path) (action : string)
    (dry_run : bool) (s : state W) :
  action ≠ "move" → action ≠ "copy" →
  do_transfer src dst action dry_run s
  = (Ret (mkdir_ok dst s && dry_run), after_mkdir dst s).
Proof.
  intros Hm Hc. step_mkdir dst s.
  destruct dry_run; [done |].
  apply String.eqb_neq in Hm, Hc. by rewrite Hm, Hc.
Qed.

(** [log_undo_operation] appends once; it swallows an [OSError] of the
    append and passes on an exception of another class. *)
Lemma log_undo_operation_eq (action : string) (src dst : path)
    (s : state W) :
  log_undo_operation action src dst s
  = (match (os_append UNDO_LOG_FILE (undo_record action src dst)
                      (world s)).1 with
     | Fine _ => Ret tt
     | Fails e => if is_OSError e then Ret tt else Raise e
     end,
     St (os_append UNDO_LOG_FILE (undo_record action src dst) (world s)).2
        (trace s ++ [EvAppend UNDO_LOG_FILE (undo_record action src dst)])).
Proof.
  unfold log_undo_operation, try_except, call, ret.
  destruct (os_append _ _ _) as [[[]|e] w']; [done |].
  simpl. by destruct (is_OSError e).
Qed.

(** [do_transfer] always returns a boolean. *)
Lemma do_transfer_returns (src dst : path) (action : string)
    (dry_run : bool) (s : state W) :
  ∃ ok, (do_transfer src dst action dry_run s).1 = Ret ok.
Proof.
  unfold do_transfer, try_except, bind, prim, raise, ret.
  destruct (os_mkdir_parents _ _) as [[[]|e] w']; simpl;
    [| destruct e; eauto].
  destruct dry_run; [eauto |].
  destruct (String.eqb action "move").
  - simpl. destruct (os_move _ _ _) as [[[]|e] w'']; simpl;
      [| destruct e; eauto].
    rewrite log_undo_operation_eq. simpl.
    destruct (os_append _ _ _).1 as [[]|e]; simpl; [eauto |].
    destruct e as [[]| | |]; simpl; eauto.
  - destruct (String.eqb action "copy"); simpl; [| eauto].
    destruct (os_copy2 _ _ _) as [[[]|e] w'']; simpl;
      [| destruct e; eauto].
    rewrite log_undo_operation_eq. simpl.
    destruct (os_append _ _ _).1 as [[]|e]; simpl; [eauto |].
    destruct e as [[]| | |]; simpl; eauto.
Qed.

End Transfer.

(** ** The conflict resolver *)

Section Conflicts.
Context {W : Type} `{FileSystem W}.

(** A destination that does not exist is returned as it is, whatever the
    policy. *)
Lemma resolve_conflict_free (fuel : nat) (destination : path)
    (conflict_policy : string) (s : state W) :
  path_exists destination (world s) = false →
  resolve_conflict fuel destination conflict_policy s
  = (Ret (Some destination), s).
Proof.
  intros Hfree. unfold resolve_conflict, bind, observe, ret.
  by rewrite Hfree.
Qed.

(** C4 (as the code has it): for a destination that exists and a policy
    other than skip, overwrite and rename, [resolve_conflict] raises a
    [ValueError] and changes nothing. *)
Theorem resolve_conflict_unknown_policy (fuel : nat) (destination : path)
    (conflict_policy : string) (s : state W) :
  path_exists destination (world s) = true →
  ¬ known_policy conflict_policy →
  resolve_conflict fuel destination conflict_policy s
  = (Raise (ValueError ("Unknown conflict policy: " +:+ conflict_policy)), s).
Proof.
  intros Hthere Hpol. unfold resolve_conflict, bind, observe, ret, raise.
  rewrite Hthere. simpl.
  destruct (String.eqb_spec conflict_policy "skip") as [->|_].
  { exfalso. apply Hpol. by left. }
  destruct (String.eqb_spec conflict_policy "overwrite") as [->|_].
  { exfalso. apply Hpol. right. by left. }
  destruct (String.eqb_spec conflict_policy "rename") as [->|_].
  { exfalso. apply Hpol. right. by right. }
  done.
Qed.

(** The probing loop stops at the first candidate that is not taken. *)
Lemma unique_path_loop_first_free (n : nat) :
  ∀ (fuel i : nat) (p : path) (s : state W),
    (∀ k : nat, (i ≤ k < i + n)%nat →
          path_exists (candidate p k) (world s) = true) →
    path_exists (candidate p (i + n)) (world s) = false →
    (n < fuel)%nat →
    unique_path_loop fuel p i s = (Ret (candidate p (i + n)), s).
Proof.
  induction n as [|n IH]; intros fuel i p s Htaken Hfree Hfuel.
  - destruct fuel as [|fuel]; [lia |].
    rewrite Nat.add_0_r in *.
    simpl. unfold bind, observe, ret. by rewrite Hfree.
  - destruct fuel as [|fuel]; [lia |].
    simpl. unfold bind, observe.
    rewrite (Htaken i) by lia. simpl.
    replace (i + S n) with (S i + n) in * by lia.
    apply IH; [| done | lia].
    intros k Hk. apply Htaken. lia.
Qed.

(** C7: when [p] exists together with its numbered siblings [p (1)] to
    [p (N)] and [p (N+1)] does not, the rename policy returns [p (N+1)],
    the first candidate that is free when probing 1, 2, ... in order; the
    loop needs [N + 1] rounds for it. *)
Theorem resolve_conflict_rename_numbered (fuel N : nat) (p : path)
    (s : state W) :
  path_exists p (world s) = true →
  (∀ k : nat, (1 ≤ k ≤ N)%nat →
        path_exists (candidate p k) (world s) = true) →
  path_exists (candidate p (S N)) (world s) = false →
  (N < fuel)%nat →
  resolve_conflict fuel p "rename" s = (Ret (Some (candidate p (S N))), s).
Proof.
  intros Hp Htaken Hfree Hfuel.
  unfold resolve_conflict, unique_path, bind, observe, ret.
  rewrite Hp. simpl. rewrite Hp. simpl.
  rewrite (unique_path_loop_first_free N fuel 1 p s); [done | | done | done].
  intros k Hk. apply Htaken. lia.
Qed.

(** C8: the size category is Small exactly below 1 MiB, Medium exactly
    from 1 MiB up to but excluding 100 MiB and Large exactly from 100 MiB
    on, so that a file of 1 MiB is Medium and one of 100 MiB is Large; and
    for a file whose size can be read, the destination that
    [organize_by_size] submits to conflict resolution and transfer is
    [dest_root / category / name]. *)
Theorem organize_by_size_thresholds (fuel : nat) (file dest_root : path)
    (ext_index : gmap string string) (kw : params) (st_size : Z)
    (s : state W) :
  os_stat_size file (world s) = Good st_size →
  (size_category st_size = "Small (Under 1MB)"
     ↔ (st_size < 1024 * 1024)%Z)
  ∧ (size_category st_size = "Medium (1-100MB)"
     ↔ (1024 * 1024 ≤ st_size < 100 * (1024 * 1024))%Z)
  ∧ (size_category st_size = "Large (Over 100MB)"
     ↔ (100 * (1024 * 1024) ≤ st_size)%Z)
  ∧ size_category (1024 * 1024) = "Medium (1-100MB)"
  ∧ size_category (100 * (1024 * 1024)) = "Large (Over 100MB)"
  ∧ size_dest_file st_size file dest_root
    = dest_root ++ [size_category st_size; name file]
  ∧ organize_by_size fuel file dest_root ext_index kw s
    = try_except
        (do final_dest <- resolve_conflict fuel
                            (size_dest_file st_size file dest_root)
                            (conflict_policy kw);
         match final_dest with
         | None => ret None
         | Some final_dest =>
             do ok <- do_transfer file final_dest (action kw) (dry_run kw);
             ret (Some ok)
         end)
        is_Exception (λ _, ret (Some false)) s.
Proof.
  intros Hstat.
  assert (Hcases := size_category_cases st_size).
  split_and!.
  1-3: rewrite Hcases;
       destruct (Z.ltb_spec st_size 1048576);
       destruct (Z.ltb_spec st_size 104857600);
       split; intros; first [lia | done | discriminate].
  - by rewrite size_category_cases.
  - by rewrite size_category_cases.
  - unfold size_dest_file, pjoin. by rewrite <- app_assoc.
  - unfold organize_by_size, try_except.
    assert (Hq : ∀ k : Z → M W (option bool),
               bind (query (os_stat_size file)) k s = k st_size s).
    { intros k. unfold bind, query. by rewrite Hstat. }
    by rewrite Hq.
Qed.

End Conflicts.

(** ** The undo engine *)

Section Undo.
Context {W : Type} `{FileSystem W}.


(** What [clear_undo_log] does: one [unlink] when the log exists, whose
    failure is swallowed. *)
Lemma clear_undo_log_eq (s : state W) :
  clear_undo_log s
  = (Ret tt,
     if path_exists UNDO_LOG_FILE (world s)
     then St (os_unlink UNDO_LOG_FILE (world s)).2
             (trace s ++ [EvUnlink UNDO_LOG_FILE])
     else s).
Proof.
  unfold clear_undo_log, try_except, bind, observe, prim, ret.
  destruct (path_exists UNDO_LOG_FILE (world s)); [| done].
  simpl. by destruct (os_unlink _ _) as [[[]|e] w'].
Qed.

(** A line that does not split into three fields is a failure that
    leaves the state alone. *)
Lemma undo_line_malformed (line : string) (s : state W) :
  length (split "|" (strip line)) ≠ 3 →
  undo_line line s = (Ret None, s).
Proof.
  intros Hlen. unfold undo_line, try_except, ret.
  destruct (split "|" (strip line)) as [|a [|b [|c [|d l]]]];
    simpl in *; done.
Qed.

(** A record whose destination is gone is a failure that leaves the
    state alone. *)
Lemma undo_line_missing (line action original_src final_dst : string)
    (s : state W) :
  well_formed line action original_src final_dst →
  path_exists (path_of_str final_dst) (world s) = false →
  undo_line line s = (Ret (Some false), s).
Proof.
  intros Hparts Hgone. unfold undo_line, try_except, bind, observe, ret.
  rewrite Hparts. by rewrite Hgone.
Qed.

(** A record whose destination exists: the [mkdir] and the [move] are
    attempted, and the line is a success exactly when both succeed. *)
Lemma undo_line_restore (line action original_src final_dst : string)
    (s : state W) :
  well_formed line action original_src final_dst →
  path_exists (path_of_str final_dst) (world s) = true →
  undo_line line s
  = let src := path_of_str original_src in
    let dst := path_of_str final_dst in
    let '(r1, w1) := os_mkdir_parents (parent src) (world s) in
    match r1 with
    | Bad _ =>
        (Ret (Some false), St w1 (trace s ++ [EvMkdir (parent src)]))
    | Good _ =>
        let '(r2, w2) := os_move dst src w1 in
        (Ret (Some (is_good r2)),
         St w2 ((trace s ++ [EvMkdir (parent src)]) ++ [EvMove dst src]))
    end.
Proof.
  intros Hparts Hthere.
  unfold undo_line, try_except, bind, observe, prim, ret.
  rewrite Hparts. rewrite Hthere. simpl.
  destruct (os_mkdir_parents _ _) as [[[]|e1] w1]; simpl; [| done].
  by destruct (os_move _ _ _) as [[[]|e2] w2].
Qed.

(** Whatever the line, the body of the loop returns: an error on a line
    never leaves the loop. *)
Lemma undo_line_returns (line : string) (s : state W) :
  ∃ r s', undo_line line s = (Ret r, s').
Proof.
  destruct (decide (length (split "|" (strip line)) = 3)) as [Hlen|Hlen].
  - destruct (split "|" (strip line)) as [|a [|b [|c [|d l]]]] eqn:Hparts;
      simpl in Hlen; try lia.
    destruct (path_exists (path_of_str c) (world s)) eqn:Hthere.
    + rewrite (undo_line_restore line a b c s Hparts Hthere). simpl.
      destruct (os_mkdir_parents _ _) as [[[]|e1] w1]; [| eauto].
      destruct (os_move _ _ _) as [[[]|e2] w2]; eauto.
    + rewrite (undo_line_missing line a b c s Hparts Hthere). eauto.
  - rewrite undo_line_malformed by done. eauto.
Qed.

Lemma call_undo_progress_quiet (cb : option (nat → nat → option exn))
    (idx total : nat) (s : state W) :
  quiet cb →
  ∃ s', call_undo_progress cb idx total s = (Ret tt, s').
Proof.
  intros Hq. unfold call_undo_progress. destruct cb as [f|]; [| by eexists].
  unfold bind, emit, ret, raise. rewrite (Hq f eq_refl). by eexists.
Qed.

Lemma undo_loop_run (cb : option (nat → nat → option exn)) (total : nat)
    (ls : list string) :
  quiet cb →
  ∀ (idx succeeded failed : nat) (s : state W),
    ∃ oks s',
      undo_run cb total idx ls s oks s'
      ∧ undo_loop cb total idx ls succeeded failed s
        = (Ret (succeeded + tally true oks, failed + tally false oks), s')
      ∧ length oks = length ls.
Proof.
  intros Hq. induction ls as [|line rest IH]; intros idx a b s.
  - exists [], s. split_and!; [constructor | | done].
    simpl. unfold ret, tally. simpl. by rewrite !Nat.add_0_r.
  - destruct (undo_line_returns line s) as ([ok|] & s1 & Hline).
    + destruct (call_undo_progress_quiet cb idx total s1 Hq) as (s2 & Hcb).
      destruct (IH (S idx) (if ok then S a else a)
                  (if ok then b else S b) s2)
        as (oks & s3 & Hrun & Hloop & Hlen).
      exists (ok :: oks), s3. split_and!.
      * by eapply undo_run_record.
      * simpl. unfold bind. rewrite Hline, Hcb, Hloop.
        unfold tally. destruct ok; simpl; do 2 f_equal; f_equal; lia.
      * simpl. by rewrite Hlen.
    + destruct (IH (S idx) a (S b) s1)
        as (oks & s3 & Hrun & Hloop & Hlen).
      exists (false :: oks), s3. split_and!.
      * by eapply undo_run_invalid.
      * simpl. unfold bind. rewrite Hline, Hloop.
        unfold tally. simpl. do 2 f_equal; f_equal; lia.
      * simpl. by rewrite Hlen.
Qed.

Lemma tally_total (oks : list bool) :
  tally true oks + tally false oks = length oks.
Proof.
  unfold tally. induction oks as [|[] oks IH]; simpl; lia.
Qed.

(** A restore that raises, at the [mkdir] or at the [move], is a
    failure of the line. *)
Lemma undo_line_restore_error
    (line action original_src final_dst : string) (s : state W) :
  well_formed line action original_src final_dst →
  path_exists (path_of_str final_dst) (world s) = true →
  (let mk := os_mkdir_parents (parent (path_of_str original_src))
                              (world s) in
   is_good mk.1 = false
   ∨ is_good (os_move (path_of_str final_dst) (path_of_str original_src)
                      mk.2).1 = false) →
  (undo_line line s).1 = Ret (Some false).
Proof.
  intros Hparts Hthere Herr.
  rewrite (undo_line_restore line action original_src final_dst s)
    by done.
  simpl in *.
  destruct (os_mkdir_parents _ _) as [[[]|e1] w1]; simpl in *; [| done].
  destruct (os_move _ _ _) as [[[]|e2] w2]; simpl in *; [| done].
  by destruct Herr.
Qed.

(** C5: [perform_undo] replays the log backwards: the line processed at
    position [i] is the line [i] places from the end of the log.  Every
    line is processed and ends as a success or as a failure, so that the
    two counts add up to the number of lines; a malformed line, a record
    whose destination is gone and a restore that raises are failures
    after which the loop goes on.  When the last line is done
    [clear_undo_log] runs, whatever the number of failures. *)
Theorem perform_undo_replays (cb : option (nat → nat → option exn))
    (lines : list string) (w1 : W) (s : state W) :
  path_exists UNDO_LOG_FILE (world s) = true →
  os_readlines UNDO_LOG_FILE (world s) = (Fine lines, w1) →
  quiet cb →
  ∃ (order : list string) (oks : list bool) (s_loop : state W),
    length order = length lines
    ∧ (∀ i : nat, (i < length lines)%nat →
         order !! i = lines !! (length lines - 1 - i)%nat)
    ∧ undo_run cb (length lines) 1 order
        (St w1 (trace s ++ [EvReadLines UNDO_LOG_FILE])) oks s_loop
    ∧ length oks = length lines
    ∧ (tally true oks + tally false oks = length lines)%nat
    ∧ perform_undo cb s
      = (Ret {| u_total := length lines; u_succeeded := tally true oks;
                u_failed := tally false oks |},
         (clear_undo_log s_loop).2)
    ∧ (clear_undo_log s_loop).2
      = (if path_exists UNDO_LOG_FILE (world s_loop)
         then St (os_unlink UNDO_LOG_FILE (world s_loop)).2
                 (trace s_loop ++ [EvUnlink UNDO_LOG_FILE])
         else s_loop)
    ∧ (∀ line s0, length (split "|" (strip line)) ≠ 3 →
         undo_line line s0 = (Ret None, s0))
    ∧ (∀ line action original_src final_dst s0,
         well_formed line action original_src final_dst →
         path_exists (path_of_str final_dst) (world s0) = false →
         undo_line line s0 = (Ret (Some false), s0))
    ∧ (∀ line action original_src final_dst s0,
         well_formed line action original_src final_dst →
         path_exists (path_of_str final_dst) (world s0) = true →
         (let mk := os_mkdir_parents (parent (path_of_str original_src))
                                     (world s0) in
          is_good mk.1 = false
          ∨ is_good (os_move (path_of_str final_dst)
                             (path_of_str original_src) mk.2).1 = false) →
         (undo_line line s0).1 = Ret (Some false)).
Proof.
  intros Hthere Hread Hq.
  destruct (undo_loop_run cb (length lines) (rev lines) Hq 1 0 0
              (St w1 (trace s ++ [EvReadLines UNDO_LOG_FILE])))
    as (oks & s_loop & Hrun & Hloop & Hlen).
  rewrite length_rev in Hlen.
  exists (rev lines), oks, s_loop. split_and!.
  - apply length_rev.
  - intros i Hi. rewrite rev_alt. fold (reverse lines).
    rewrite reverse_lookup by done. f_equal. lia.
  - done.
  - done.
  - by rewrite tally_total.
  - unfold perform_undo, try_except, bind, observe, call.
    rewrite Hthere. simpl. rewrite Hread. simpl.
    rewrite Hloop. simpl.
    rewrite clear_undo_log_eq. done.
  - by rewrite clear_undo_log_eq.
  - intros. by apply undo_line_malformed.
  - intros. by eapply undo_line_missing.
  - intros. by eapply undo_line_restore_error.
Qed.

End Undo.

(** ** The orchestrator *)

Section Orchestrator.
Context {W : Type} `{FileSystem W}.

Lemma count_balanced (c : counters) (result : option bool) :
  balanced c → balanced (count c result)
  ∧ c_processed (count c result) = S (c_processed c).
Proof.
  unfold balanced. intros Hc. destruct result as [[]|]; simpl; lia.
Qed.

(** The loop keeps the counters balanced and counts at most one file for
    each item. *)
Lemma run_loop_counts (organizer_func : organizer) (fuel : nat)
    (kw : params) (ext_index : gmap string string) (total : nat)
    (items : list path) :
  ∀ (idx : nat) (c c' : counters) (s s' : state W),
    run_loop organizer_func fuel kw ext_index total idx items c s
    = (Ret c', s') →
    balanced c →
    balanced c' ∧ (c_processed c' ≤ c_processed c + length items)%nat.
Proof.
  induction items as [|item rest IH]; intros idx c c' s s' Hrun Hc.
  - simpl in Hrun. unfold ret in Hrun. simplify_eq. split; [done | lia].
  - simpl in Hrun. destruct (is_cancelled kw idx).
    { unfold ret in Hrun. simplify_eq. split; [done | lia]. }
    unfold bind in Hrun.
    destruct (organizer_func fuel item (dest kw) ext_index kw s)
      as [[result| |] s1]; [| done | done].
    destruct (call_run_progress kw idx total item result s1)
      as [[[]| |] s2]; [| done | done].
    destruct (count_balanced c result Hc) as [Hc1 Hp1].
    destruct (IH _ _ _ _ _ Hrun Hc1) as [Hc' Hle].
    split; [done |]. simpl. lia.
Qed.

Lemma resolve_conflict_loop_free (fuel : nat) (destination : path)
    (kw : params) (s : state W) :
  loop_free_policy kw →
  ∃ r s', resolve_conflict fuel destination (conflict_policy kw) s
          = (Ret r, s').
Proof.
  intros Hpol. unfold resolve_conflict, try_except, bind, observe, prim, ret.
  destruct (path_exists destination (world s)) eqn:Hthere; simpl;
    [| eauto].
  destruct Hpol as [-> | ->]; simpl; [eauto |].
  rewrite Hthere.
  destruct (path_is_dir destination (world s)).
  - destruct (os_rmtree _ _) as [[[]|e] w']; simpl; eauto.
  - destruct (os_unlink _ _) as [[[]|e] w']; simpl; eauto.
Qed.

Lemma resolve_and_transfer_returns (fuel : nat) (file dest_file : path)
    (kw : params) (s : state W) :
  loop_free_policy kw →
  ∃ r s', resolve_and_transfer fuel file dest_file kw s = (Ret r, s').
Proof.
  intros Hpol. unfold resolve_and_transfer, bind.
  destruct (resolve_conflict_loop_free fuel dest_file kw s Hpol)
    as (r & s1 & ->).
  destruct r as [final_dest|]; [| unfold ret; eauto].
  destruct (do_transfer_returns file final_dest (action kw) (dry_run kw) s1)
    as [ok Hok].
  destruct (do_transfer _ _ _ _ s1) as [o s2]. simpl in Hok. subst o.
  unfold ret. eauto.
Qed.

Lemma try_except_all_returns {A} (m : M W A) (h : exn → M W A)
    (s : state W) :
  (∀ e s0, ∃ a s', h e s0 = (Ret a, s')) →
  (m s).1 ≠ Diverge →
  ∃ a s', try_except m is_Exception h s = (Ret a, s').
Proof.
  intros Hh Hm. unfold try_except.
  destruct (m s) as [[a|e|] s1]; simpl in *; [eauto | apply Hh | done].
Qed.

Lemma organizer_returns (fuel : nat) (kw : params)
    (organizer_func : organizer) (file dest_root : path)
    (ext_index : gmap string string) (s : state W) :
  ORGANIZERS (mode kw) = Some organizer_func →
  loop_free_policy kw →
  ∃ r s', organizer_func fuel file dest_root ext_index kw s = (Ret r, s').
Proof.
  intros Hmode Hpol. unfold ORGANIZERS in Hmode.
  repeat (destruct (String.eqb (mode kw) _) in Hmode;
          [injection Hmode as <- | ]); [..| done].
  - unfold organize_by_type.
    destruct (ext_index !! _) as [c|]; [| destruct (skip_unknown kw)].
    + by apply resolve_and_transfer_returns.
    + unfold ret. eauto.
    + by apply resolve_and_transfer_returns.
  - by apply resolve_and_transfer_returns.
  - apply try_except_all_returns; [unfold ret; eauto |].
    unfold bind at 1, query.
    destruct (os_stat_mtime file (world s)) as [date|e]; [| done].
    edestruct (resolve_and_transfer_returns fuel file) as (r & s1 & Hr);
      [done |].
    unfold resolve_and_transfer in Hr. by rewrite Hr.
  - apply try_except_all_returns; [unfold ret; eauto |].
    unfold bind at 1, query.
    destruct (os_stat_mtime file (world s)) as [date|e]; [| done].
    edestruct (resolve_and_transfer_returns fuel file) as (r & s1 & Hr);
      [done |].
    unfold resolve_and_transfer in Hr. by rewrite Hr.
  - apply try_except_all_returns; [unfold ret; eauto |].
    unfold bind at 1, query.
    destruct (os_stat_size file (world s)) as [st_size|e]; [| done].
    edestruct (resolve_and_transfer_returns fuel file) as (r & s1 & Hr);
      [done |].
    unfold resolve_and_transfer in Hr. by rewrite Hr.
  - by apply resolve_and_transfer_returns.
Qed.

Lemma call_run_progress_quiet (kw : params) (idx total : nat)
    (item : path) (result : option bool) (s : state W) :
  quiet_run kw →
  ∃ s', call_run_progress kw idx total item result s = (Ret tt, s').
Proof.
  intros Hq. unfold call_run_progress.
  destruct (on_progress kw) as [f|] eqn:Hf; [| by eexists].
  unfold bind, emit, ret, raise. rewrite (Hq f Hf). by eexists.
Qed.

Lemma run_loop_returns (organizer_func : organizer) (fuel : nat)
    (kw : params) (ext_index : gmap string string) (total : nat)
    (items : list path) :
  ORGANIZERS (mode kw) = Some organizer_func →
  loop_free_policy kw → quiet_run kw →
  ∀ (idx : nat) (c : counters) (s : state W),
    ∃ c' s',
      run_loop organizer_func fuel kw ext_index total idx items c s
      = (Ret c', s').
Proof.
  intros Hmode Hpol Hq.
  induction items as [|item rest IH]; intros idx c s; simpl.
  - unfold ret. eauto.
  - destruct (is_cancelled kw idx); [unfold ret; eauto |].
    unfold bind.
    destruct (organizer_returns fuel kw organizer_func item (dest kw)
                ext_index s Hmode Hpol) as (r & s1 & ->).
    destruct (call_run_progress_quiet kw idx total item r s1 Hq)
      as (s2 & ->).
    apply IH.
Qed.

(** With a conflict policy that never probes and a callback that
    returns normally, a run returns statistics, provided that the
    listing of the files and the loading of the categories, both done
    before the first file, return. *)
Lemma process_directory_returns (fuel : nat) (kw : params) (s : state W)
    (listed : list path) (loaded : categories) (w1 : W) :
  os_list_files (source kw) (recursive kw) (Some (dest kw)) (world s)
    = Fine listed →
  os_load_categories (world s) = (Fine loaded, w1) →
  loop_free_policy kw → quiet_run kw →
  ∃ st s', process_directory fuel kw s = (Ret st, s').
Proof.
  intros Hlist Hload Hpol Hq.
  unfold process_directory, validate_paths, bind, observe, ask, call, ret.
  match goal with |- context [negb ?v] => destruct v end; simpl;
    [| eauto].
  destruct (ORGANIZERS (mode kw)) as [organizer_func|] eqn:Hmode;
    [| eauto].
  rewrite Hlist.
  match goal with |- context [(?n =? 0)%nat] => destruct (n =? 0)%nat end;
    [eauto |].
  rewrite Hload. simpl.
  match goal with |- context [run_loop ?f ?fu ?k ?e ?t ?i ?l ?c ?s0] =>
    destruct (run_loop_returns f fu k e t l Hmode Hpol Hq i c s0)
      as (c' & s2 & ->)
  end.
  eauto.
Qed.

(** C9: the statistics that [process_directory] returns satisfy
    [processed = succeeded + failed + skipped] and [processed ≤ total],
    on every path through the function that returns: failed validation,
    unknown mode, no file, a run to the end and a run cancelled on the
    way. *)
Theorem process_directory_counts (fuel : nat) (kw : params) (s : state W) :
  ∀ st s', process_directory fuel kw s = (Ret st, s') →
    processed st = (succeeded st + failed st + skipped st)%nat
    ∧ (processed st ≤ total st)%nat.
Proof.
  unfold process_directory, validate_paths, bind, observe, ask, call, ret.
  intros st s'.
  match goal with |- context [negb ?v] => destruct v end; simpl;
    [| intros; simplify_eq; simpl; lia].
  destruct (ORGANIZERS (mode kw)) as [organizer_func|];
    [| intros; simplify_eq; simpl; lia].
  destruct (os_list_files _ _ _ _) as [listed|e]; [| done].
  match goal with |- context [(?n =? 0)%nat] => destruct (n =? 0)%nat end;
    [intros; simplify_eq; simpl; lia |].
  destruct (os_load_categories (world s)) as [[loaded|e] w1]; simpl;
    [| done].
  match goal with |- context [run_loop ?f ?fu ?k ?e ?t ?i ?l ?c ?s0] =>
    destruct (run_loop f fu k e t i l c s0) as [[c'| |] s2] eqn:Hrun
  end; [| done | done].
  intros; simplify_eq; simpl.
  apply run_loop_counts in Hrun; [| done].
  destruct Hrun as [Hbal Hle]. simpl in Hle. split; [done | lia].
Qed.

End Orchestrator.

(** ** The extension index *)

Section ExtIndex.

Lemma ext_index_scan_occurrences (cats : categories) :
  ∀ acc,
    foldl (λ acc ce, foldl (index_ext ce.1) acc ce.2) acc cats
    = foldl (λ acc ce, index_ext ce.1 acc ce.2) acc (occurrences cats).
Proof.
  induction cats as [|[cat exts] cats IH]; intros acc; [done |].
  simpl. unfold occurrences. simpl. rewrite foldl_app.
  fold (occurrences cats). rewrite <- IH. f_equal.
  clear IH. revert acc. induction exts as [|e exts IHe]; intros acc;
    [done |]. simpl. apply IHe.
Qed.

Lemma first_cat_app (k : string) (before : list (string * string))
    (ce : string * string) :
  first_cat k (before ++ [ce])
  = match first_cat k before with
    | Some first => Some first
    | None => if lists_ext k ce then Some ce.1 else None
    end.
Proof.
  unfold first_cat. induction before as [|x before IH]; simpl.
  - by destruct (lists_ext k ce).
  - by destruct (lists_ext k x).
Qed.

Lemma lists_ext_lower (ce : string * string) :
  ce.2 ≠ "" → lists_ext (lower ce.2) ce = true.
Proof.
  intros Hne. unfold lists_ext. rewrite bool_decide_eq_true_2 by done.
  simpl. apply String.eqb_refl.
Qed.

Lemma lists_ext_other (k : string) (ce : string * string) :
  k ≠ lower ce.2 → lists_ext k ce = false.
Proof.
  intros Hne. unfold lists_ext. apply andb_false_iff. right.
  apply String.eqb_neq. congruence.
Qed.

(** One round of the loop keeps the index equal to [first_cat] of the
    pairs seen so far, and reports the pair when its extension was seen. *)
Lemma index_ext_invariant (before : list (string * string))
    (ce : string * string) (idx : gmap string string)
    (duplicates : list string) :
  (∀ k, idx !! k = first_cat k before) →
  (∀ k, (index_ext ce.1 (idx, duplicates) ce.2).1 !! k
        = first_cat k (before ++ [ce]))
  ∧ (index_ext ce.1 (idx, duplicates) ce.2).2
    = duplicates
      ++ (if bool_decide (ce.2 ≠ "") then
            match first_cat (lower ce.2) before with
            | Some first => [dup_msg (lower ce.2) first ce.1]
            | None => []
            end
          else []).
Proof.
  intros Hidx. unfold index_ext. rewrite <- Hidx.
  case_bool_decide as Hne.
  - destruct (idx !! lower ce.2) as [first|] eqn:Hlook; simpl.
    + split; [| done].
      intros k. rewrite first_cat_app, <- Hidx.
      destruct (idx !! k) eqn:Hk; [done |].
      destruct (decide (k = lower ce.2)) as [->|Hk']; [congruence |].
      by rewrite lists_ext_other.
    + split; [| by rewrite app_nil_r].
      intros k. rewrite first_cat_app, <- Hidx.
      destruct (decide (k = lower ce.2)) as [->|Hk'].
      * rewrite lookup_insert_eq, Hlook. by rewrite lists_ext_lower.
      * rewrite lookup_insert_ne by congruence.
        rewrite lists_ext_other by done. by destruct (idx !! k).
  - simpl. split; [| by rewrite app_nil_r].
    intros k. rewrite first_cat_app, <- Hidx.
    destruct (idx !! k); [done |].
    unfold lists_ext. rewrite bool_decide_eq_false_2; [done |].
    intros Hne'. by apply Hne'.
Qed.

Lemma index_scan_invariant (occs : list (string * string)) :
  ∀ (before : list (string * string))
    (acc : gmap string string * list string),
    (∀ k, acc.1 !! k = first_cat k before) →
    (∀ k, (foldl (λ acc ce, index_ext ce.1 acc ce.2) acc occs).1 !! k
          = first_cat k (before ++ occs))
    ∧ (foldl (λ acc ce, index_ext ce.1 acc ce.2) acc occs).2
      = acc.2 ++ reported before occs.
Proof.
  induction occs as [|ce occs IH]; intros before [idx duplicates] Hidx.
  - simpl. rewrite !app_nil_r. done.
  - cbn [foldl fst snd reported] in *.
    replace (before ++ ce :: occs) with ((before ++ [ce]) ++ occs)
      by by rewrite <- app_assoc.
    destruct (index_ext_invariant before ce idx duplicates Hidx)
      as [Hstep1 Hstep2].
    destruct (IH (before ++ [ce]) _ Hstep1) as [H1 H2].
    split; [done |].
    rewrite H2, Hstep2. by rewrite <- app_assoc.
Qed.

Lemma first_cat_prefix (k first : string)
    (before rest : list (string * string)) :
  first_cat k before = Some first →
  first_cat k (before ++ rest) = Some first.
Proof.
  unfold first_cat. induction before as [|x before IH]; simpl; [done |].
  by destruct (lists_ext k x).
Qed.

Lemma first_cat_listed (ce : string * string)
    (occs : list (string * string)) :
  ce ∈ occs → ce.2 ≠ "" → is_Some (first_cat (lower ce.2) occs).
Proof.
  intros Hin Hne. unfold first_cat.
  destruct (List.find (lists_ext (lower ce.2)) occs) as [x|] eqn:Hfind;
    [by eexists |].
  apply list_elem_of_In in Hin.
  pose proof (find_none _ _ Hfind ce Hin) as Hno.
  by rewrite lists_ext_lower in Hno.
Qed.

Lemma reported_app (l1 l2 : list (string * string)) :
  ∀ before,
    reported before (l1 ++ l2)
    = reported before l1 ++ reported (before ++ l1) l2.
Proof.
  induction l1 as [|ce l1 IH]; intros before; simpl.
  - by rewrite app_nil_r.
  - rewrite IH, <- !app_assoc. done.
Qed.

(** C6 (as the code has it): the keys of the index are the lower-case
    forms of the non-empty extensions.  For every non-empty extension
    of every category its lower-case form is a key, mapped to the
    category that is first, in iteration order, to list an extension
    with that lower-case form; and every later listing of it is
    reported in the warning, with that first category and the category
    of the listing, while the first mapping is kept. *)
Theorem build_ext_index_first_wins (cats : categories) :
  (build_ext_index cats).2 = duplicates_warning (ext_index_scan cats).2
  ∧ (∀ k, (build_ext_index cats).1 !! k
          = first_cat k (occurrences cats))
  ∧ (∀ cat e, (cat, e) ∈ occurrences cats → e ≠ "" →
       ∃ first, (build_ext_index cats).1 !! lower e = Some first
                ∧ first_cat (lower e) (occurrences cats) = Some first)
  ∧ (ext_index_scan cats).2 = reported [] (occurrences cats)
  ∧ (∀ before cat e after first,
       occurrences cats = before ++ (cat, e) :: after →
       e ≠ "" →
       first_cat (lower e) before = Some first →
       (build_ext_index cats).1 !! lower e = Some first
       ∧ dup_msg (lower e) first cat ∈ (ext_index_scan cats).2).
Proof.
  assert (Hinv :
    (∀ k, (ext_index_scan cats).1 !! k = first_cat k (occurrences cats))
    ∧ (ext_index_scan cats).2 = reported [] (occurrences cats)).
  { unfold ext_index_scan. rewrite ext_index_scan_occurrences.
    by apply (index_scan_invariant (occurrences cats) [] (∅, [])). }
  destruct Hinv as [Hidx Hdup].
  assert (Hfst : (build_ext_index cats).1 = (ext_index_scan cats).1).
  { unfold build_ext_index. by destruct (ext_index_scan cats). }
  rewrite Hfst. split_and!.
  - unfold build_ext_index. by destruct (ext_index_scan cats).
  - done.
  - intros cat e Hin Hne.
    destruct (first_cat_listed (cat, e) _ Hin Hne) as [first Hfirst].
    exists first. by rewrite Hidx.
  - done.
  - intros before cat e after first Hocc Hne Hfirst. split.
    + rewrite Hidx, Hocc. by apply first_cat_prefix.
    + rewrite Hdup, Hocc, reported_app. apply elem_of_app. right.
      simpl. rewrite bool_decide_eq_true_2 by done. rewrite Hfirst.
      apply elem_of_app. left. apply list_elem_of_singleton. done.
Qed.

End ExtIndex.

(** ** The steps of a run *)

Section RunSteps.
Context {W : Type} `{FileSystem W}.

Lemma spec_ret {A} (P : event → Prop) (Q : A → Prop) (a : A) :
  Q a → spec P Q (ret a : M W A).
Proof.
  intros HQ s. split.
  - exists []. by rewrite app_nil_r.
  - unfold ret. simpl. by intros a' [= <-].
Qed.

Lemma spec_raise {A} (P : event → Prop) (Q : A → Prop) (e : exn) :
  spec P Q (raise e : M W A).
Proof.
  intros s. split; [| done]. exists []. by rewrite app_nil_r.
Qed.

Lemma spec_diverge {A} (P : event → Prop) (Q : A → Prop) :
  spec P Q (@diverge W A).
Proof.
  intros s. split; [| done]. exists []. by rewrite app_nil_r.
Qed.

Lemma spec_observe {A} (P : event → Prop) (Q : A → Prop) (f : W → A) :
  (∀ w, Q (f w)) → spec P Q (observe f).
Proof.
  intros HQ s. split.
  - exists []. by rewrite app_nil_r.
  - unfold observe. simpl. by intros a [= <-].
Qed.

Lemma spec_query {A} (P : event → Prop) (f : W → res A) :
  spec P (λ _, True) (query f).
Proof.
  intros s. split; [| done]. exists []. by rewrite app_nil_r.
Qed.

Lemma spec_prim {A} (P : event → Prop) (ev : event)
    (op : W → res A * W) :
  P ev → spec P (λ _, True) (prim ev op).
Proof.
  intros HP s. split; [| done]. exists [ev]. unfold prim.
  destruct (op (world s)) as [r w']. simpl. split; [done |].
  by constructor.
Qed.

Lemma spec_emit (P : event → Prop) (ev : event) :
  P ev → spec P (λ _, True) (emit ev : M W unit).
Proof.
  intros HP s. split; [| done]. exists [ev]. simpl. split; [done |].
  by constructor.
Qed.

Lemma spec_bind {A B} (P : event → Prop) (Q : A → Prop) (R : B → Prop)
    (m : M W A) (k : A → M W B) :
  spec P Q m → (∀ a, Q a → spec P R (k a)) → spec P R (bind m k).
Proof.
  intros Hm Hk s. unfold bind.
  destruct (Hm s) as [(evs1 & Htr1 & HP1) HQ].
  destruct (m s) as [[a|e|] s1]; simpl in *.
  - destruct (Hk a (HQ a eq_refl) s1) as [(evs2 & Htr2 & HP2) HR].
    split; [| done]. exists (evs1 ++ evs2).
    rewrite Htr2, Htr1, <- app_assoc. split; [done |].
    by apply Forall_app.
  - split; [eauto | done].
  - split; [eauto | done].
Qed.

Lemma spec_try_except {A} (P : event → Prop) (Q : A → Prop) (m : M W A)
    (handles : exn → bool) (h : exn → M W A) :
  spec P Q m → (∀ e, spec P Q (h e)) → spec P Q (try_except m handles h).
Proof.
  intros Hm Hh s. unfold try_except.
  destruct (Hm s) as [(evs1 & Htr1 & HP1) HQ].
  destruct (m s) as [[a|e|] s1]; simpl in *.
  - split; [eauto | done].
  - destruct (handles e); [| split; [eauto | done]].
    destruct (Hh e s1) as [(evs2 & Htr2 & HP2) HR].
    split; [| done]. exists (evs1 ++ evs2).
    rewrite Htr2, Htr1, <- app_assoc. split; [done |].
    by apply Forall_app.
  - split; [eauto | done].
Qed.

Lemma spec_weaken {A} (P : event → Prop) (Q Q' : A → Prop) (m : M W A) :
  spec P Q m → (∀ a, Q a → Q' a) → spec P Q' m.
Proof.
  intros Hm HQ s. destruct (Hm s) as [Htr Hret]. split; [done |].
  intros a Ha. by apply HQ, Hret.
Qed.

Lemma spec_call {A} (P : event → Prop) (ev : event)
    (op : W → answer A * W) :
  P ev → spec P (λ _, True) (call ev op).
Proof.
  intros HP s. split; [| done]. exists [ev]. unfold call.
  destruct (op (world s)) as [r w']. simpl. split; [done |].
  by constructor.
Qed.

Lemma spec_ask {A} (P : event → Prop) (f : W → answer A) :
  spec P (λ _, True) (ask f).
Proof.
  intros s. split; [| done]. exists []. by rewrite app_nil_r.
Qed.

Section Steps.
Variables (kw : params) (items : list path).

Let P := run_step kw items.









End Steps.

Lemma bind_observe {A B} (f : W → A) (k : A → M W B) (s : state W) :
  bind (observe f) k s = k (f (world s)) s.
Proof. done. Qed.



End RunSteps.

(** ** More on the extension index *)

Section ExtIndexMore.

Lemma ext_index_scan_spec (cats : categories) :
  (∀ k, (ext_index_scan cats).1 !! k = first_cat k (occurrences cats))
  ∧ (ext_index_scan cats).2 = reported [] (occurrences cats).
Proof.
  unfold ext_index_scan. rewrite ext_index_scan_occurrences.
  by apply (index_scan_invariant (occurrences cats) [] (∅, [])).
Qed.

Lemma build_ext_index_fst (cats : categories) :
  (build_ext_index cats).1 = (ext_index_scan cats).1.
Proof. unfold build_ext_index. by destruct (ext_index_scan cats). Qed.

Lemma build_ext_index_snd (cats : categories) :
  (build_ext_index cats).2 = duplicates_warning (ext_index_scan cats).2.
Proof. unfold build_ext_index. by destruct (ext_index_scan cats). Qed.

Lemma first_cat_Some (k first : string) (occs : list (string * string)) :
  first_cat k occs = Some first →
  ∃ e, (first, e) ∈ occs ∧ e ≠ "" ∧ lower e = k.
Proof.
  unfold first_cat. intros Hfirst.
  destruct (List.find (lists_ext k) occs) as [[c e]|] eqn:Hfind;
    [| done].
  simpl in Hfirst. injection Hfirst as ->.
  apply find_some in Hfind as [Hin Hl].
  unfold lists_ext in Hl. apply andb_true_iff in Hl as [Hne Heq].
  exists e. split_and!.
  - by apply list_elem_of_In.
  - by apply bool_decide_eq_true in Hne.
  - by apply String.eqb_eq in Heq.
Qed.

Lemma first_cat_None (k : string) (occs : list (string * string)) :
  first_cat k occs = None ↔ k ∉ ext_keys occs.
Proof.
  unfold first_cat, ext_keys. induction occs as [|ce occs IH]; simpl.
  - split; [intros _ Hin; by apply elem_of_nil in Hin | done].
  - unfold lists_ext at 1, listed at 1.
    case_bool_decide as Hne; simpl.
    + destruct (String.eqb_spec (lower ce.2) k) as [Heq|Hneq]; simpl.
      * split; [done |]. intros Hnot. exfalso. apply Hnot.
        rewrite Heq. by left.
      * rewrite IH. split.
        -- intros Hnot Hin. apply elem_of_cons in Hin as [Hin|Hin];
             [by subst | done].
        -- intros Hnot Hin. apply Hnot. by right.
    + apply IH.
Qed.

(** The index is sound: each of its entries comes from a non-empty
    extension of the category it names, lower-cased. *)
Theorem build_ext_index_sound (cats : categories) (k cat : string) :
  (build_ext_index cats).1 !! k = Some cat →
  ∃ e, (cat, e) ∈ occurrences cats ∧ e ≠ "" ∧ lower e = k.
Proof.
  rewrite build_ext_index_fst.
  destruct (ext_index_scan_spec cats) as [Hidx _].
  rewrite Hidx. apply first_cat_Some.
Qed.

Lemma find_ext_eq {A} (f g : A → bool) (l : list A) :
  (∀ x, x ∈ l → f x = g x) → List.find f l = List.find g l.
Proof.
  induction l as [|x l IH]; intros Hfg; [done |]. simpl.
  rewrite (Hfg x) by by left.
  destruct (g x); [done |]. apply IH. intros y Hy. apply Hfg. by right.
Qed.

(** On a map whose extensions are non-empty and in lower case, every
    extension of every category is itself a key of the index, mapped to
    the first category, in iteration order, that lists it. *)
Theorem build_ext_index_normalised (cats : categories) (cat e : string) :
  normalised cats →
  (cat, e) ∈ occurrences cats →
  ∃ first,
    (build_ext_index cats).1 !! e = Some first
    ∧ fst <$> List.find (λ ce, String.eqb ce.2 e) (occurrences cats)
      = Some first.
Proof.
  intros Hnorm Hin.
  rewrite build_ext_index_fst.
  destruct (ext_index_scan_spec cats) as [Hidx _].
  rewrite Hidx. unfold first_cat.
  rewrite (find_ext_eq (lists_ext e) (λ ce, String.eqb ce.2 e)).
  - destruct (List.find _ _) as [x|] eqn:Hfind; [by eexists |].
    apply list_elem_of_In in Hin.
    pose proof (find_none _ _ Hfind _ Hin) as Hno. simpl in Hno.
    by rewrite String.eqb_refl in Hno.
  - intros ce Hce. destruct (Hnorm ce Hce) as [Hne Hlow].
    unfold lists_ext. rewrite bool_decide_eq_true_2 by done.
    by rewrite Hlow.
Qed.

Lemma index_ext_count (ce : string * string)
    (acc : gmap string string * list string) :
  size (index_ext ce.1 acc ce.2).1 + length (index_ext ce.1 acc ce.2).2
  = size acc.1 + length acc.2 + (if listed ce then 1 else 0).
Proof.
  destruct acc as [idx duplicates]. unfold index_ext, listed.
  case_bool_decide as Hne; simpl; [| lia].
  destruct (idx !! lower ce.2) eqn:Hlook; simpl.
  - rewrite length_app. simpl. lia.
  - rewrite map_size_insert_None by done. lia.
Qed.

Lemma index_scan_count (occs : list (string * string)) :
  ∀ acc : gmap string string * list string,
    size (foldl (λ acc ce, index_ext ce.1 acc ce.2) acc occs).1
    + length (foldl (λ acc ce, index_ext ce.1 acc ce.2) acc occs).2
    = size acc.1 + length acc.2 + length (List.filter listed occs).
Proof.
  induction occs as [|ce occs IH]; intros acc; simpl; [lia |].
  rewrite IH, index_ext_count. destruct (listed ce); simpl; lia.
Qed.

(** Nothing is dropped without a report: the keys of the index and the
    reported duplicates together are as many as the non-empty extensions
    of the map. *)
Theorem build_ext_index_count (cats : categories) :
  size (build_ext_index cats).1 + length (ext_index_scan cats).2
  = length (List.filter listed (occurrences cats)).
Proof.
  rewrite build_ext_index_fst. unfold ext_index_scan.
  rewrite ext_index_scan_occurrences, index_scan_count.
  simpl. rewrite map_size_empty. lia.
Qed.

Lemma ext_keys_snoc (before : list (string * string))
    (ce : string * string) :
  ext_keys (before ++ [ce])
  = ext_keys before ++ (if listed ce then [lower ce.2] else []).
Proof.
  unfold ext_keys. rewrite List.filter_app, fmap_app. simpl.
  by destruct (listed ce).
Qed.

Lemma ext_keys_cons (ce : string * string)
    (occs : list (string * string)) :
  ext_keys (ce :: occs)
  = (if listed ce then [lower ce.2] else []) ++ ext_keys occs.
Proof. unfold ext_keys. simpl. by destruct (listed ce). Qed.

Lemma reported_nil (occs : list (string * string)) :
  ∀ before,
    reported before occs = []
    ↔ NoDup (ext_keys occs)
      ∧ (∀ k, k ∈ ext_keys occs → k ∉ ext_keys before).
Proof.
  induction occs as [|ce occs IH]; intros before.
  - simpl. split; [| done]. intros _. split; [constructor |].
    intros k Hk. by apply elem_of_nil in Hk.
  - cbn [reported]. change (bool_decide (ce.2 ≠ "")) with (listed ce).
    rewrite app_nil, IH, ext_keys_cons.
    destruct (listed ce) eqn:Hl; simpl.
    + rewrite NoDup_cons.
      destruct (first_cat (lower ce.2) before) as [first|] eqn:Hf.
      * split; [intros [? _]; done |].
        intros [[_ _] Hout]. exfalso.
        assert (Hnone : first_cat (lower ce.2) before = None).
        { apply first_cat_None. apply Hout. by left. }
        congruence.
      * apply first_cat_None in Hf. split.
        -- intros [_ [Hnd Hout]]. split_and!; [| done |].
           ++ intros Hin. apply (Hout _ Hin).
              rewrite ext_keys_snoc, Hl. apply elem_of_app. right.
              by left.
           ++ intros k Hk. apply elem_of_cons in Hk as [->|Hk]; [done |].
              intros Hb. apply (Hout k Hk).
              rewrite ext_keys_snoc. apply elem_of_app. by left.
        -- intros [[Hnew Hnd] Hout]. split_and!; [done.. |].
           intros k Hk. rewrite ext_keys_snoc, Hl.
           intros Hb. apply elem_of_app in Hb as [Hb|Hb].
           ++ apply (Hout k); [by right | done].
           ++ apply list_elem_of_singleton in Hb. by subst.
    + split.
      * intros [_ [Hnd Hout]]. split; [done |].
        intros k Hk Hb. apply (Hout k Hk). rewrite ext_keys_snoc.
        apply elem_of_app. by left.
      * intros [Hnd Hout]. split_and!; [done.. |].
        intros k Hk. rewrite ext_keys_snoc, Hl, app_nil_r.
        by apply Hout.
Qed.

Lemma ext_index_warning_iff (cats : categories) :
  (build_ext_index cats).2 = None ↔ NoDup (ext_keys (occurrences cats)).
Proof.
  rewrite build_ext_index_snd.
  destruct (ext_index_scan_spec cats) as [_ Hdup]. rewrite Hdup.
  pose proof (reported_nil (occurrences cats) []) as Hnil.
  destruct (reported [] (occurrences cats)) as [|d ds] eqn:Hrep; simpl.
  - split; [| done]. intros _. by apply Hnil.
  - split; [done |]. intros Hnd.
    assert (d :: ds = []) as Hempty; [| done].
    apply Hnil. split; [done |]. intros k _ Hk.
    by apply elem_of_nil in Hk.
Qed.

(** [build_ext_index] warns exactly when two non-empty extensions of
    the map agree in lower case. *)
Theorem build_ext_index_warns (cats : categories) :
  (build_ext_index cats).2 = None ↔ NoDup (ext_keys (occurrences cats)).
Proof. apply ext_index_warning_iff. Qed.

End ExtIndexMore.

(** ** The bulk entry of extensions *)

Section BulkAdd.

Lemma ascii_lower_idemp (c : ascii) :
  ascii_lower (ascii_lower c) = ascii_lower c.
Proof. by destruct c as [[] [] [] [] [] [] [] []]. Qed.

Lemma lower_idemp (s : string) : lower (lower s) = lower s.
Proof.
  unfold lower. induction s as [|c s IH]; simpl; [done |].
  by rewrite ascii_lower_idemp, IH.
Qed.

Lemma add_line_tidy (extensions : list string) (line : string) :
  NoDup extensions → Forall tidy extensions →
  NoDup (add_line extensions line) ∧ Forall tidy (add_line extensions line).
Proof.
  intros Hnd Hall. unfold add_line.
  case_bool_decide as Hne; [| done].
  case_bool_decide as Hin; [done |].
  split.
  - apply NoDup_app. split_and!; [done | | apply NoDup_singleton].
    intros x Hx Hx'. apply list_elem_of_singleton in Hx'. by subst.
  - apply Forall_app. split; [done |]. apply Forall_singleton.
    destruct (startswith_dot (lower (strip line))) eqn:Hdot.
    + split; [done | apply lower_idemp].
    + split; [done |].
      change (lower ("." +:+ lower (strip line)))
        with (String (ascii_lower ".") (lower (lower (strip line)))).
      by rewrite lower_idemp.
Qed.

Lemma get_extensions_tidy (text : string) :
  NoDup (get_extensions text) ∧ Forall tidy (get_extensions text).
Proof.
  unfold get_extensions.
  generalize (split (ascii_of_nat 10)
                (replace_char ";" (ascii_of_nat 10)
                   (replace_char "," (ascii_of_nat 10) text))).
  intros lines.
  assert (Hgen : ∀ acc, NoDup acc → Forall tidy acc →
            NoDup (foldl add_line acc lines)
            ∧ Forall tidy (foldl add_line acc lines)).
  { induction lines as [|line lines IH]; intros acc Hnd Hall; [done |].
    simpl. destruct (add_line_tidy acc line Hnd Hall). by apply IH. }
  apply Hgen; constructor.
Qed.

(** The extensions that the bulk dialog returns are pairwise different,
    and each begins with a dot and is in lower case. *)
Theorem get_extensions_normalises (text : string) :
  NoDup (get_extensions text)
  ∧ ∀ ext, ext ∈ get_extensions text →
      startswith_dot ext = true ∧ ext ≠ "" ∧ lower ext = ext.
Proof.
  destruct (get_extensions_tidy text) as [Hnd Hall].
  split; [done |]. intros ext Hin.
  rewrite Forall_forall in Hall. destruct (Hall ext Hin) as [Hdot Hlow].
  split_and!; [done | | done]. intros ->. done.
Qed.

Lemma occurrences_single (cat : string) (exts : list string) :
  occurrences [(cat, exts)] = (λ e, (cat, e)) <$> exts.
Proof. unfold occurrences. simpl. by rewrite app_nil_r. Qed.

Lemma ext_keys_tidy (cat : string) (exts : list string) :
  Forall tidy exts → ext_keys ((λ e, (cat, e)) <$> exts) = exts.
Proof.
  induction 1 as [|e exts [Hdot Hlow] Hall IH]; [done |].
  rewrite fmap_cons, ext_keys_cons. unfold listed. simpl.
  rewrite bool_decide_eq_true_2; [| by intros ->].
  simpl. by rewrite Hlow, IH.
Qed.

(** The extensions of the bulk dialog, put into one category, index to
    that category as they are, and [build_ext_index] has nothing to warn
    about. *)
Theorem bulk_extensions_index (cat text ext : string) :
  ext ∈ get_extensions text →
  (build_ext_index [(cat, get_extensions text)]).1 !! ext = Some cat
  ∧ (build_ext_index [(cat, get_extensions text)]).2 = None.
Proof.
  intros Hin. destruct (get_extensions_tidy text) as [Hnd Hall].
  split.
  - rewrite build_ext_index_fst.
    destruct (ext_index_scan_spec [(cat, get_extensions text)])
      as [Hidx _].
    rewrite Hidx, occurrences_single.
    rewrite Forall_forall in Hall. destruct (Hall ext Hin) as [Hdot Hlow].
    assert (Hocc : (cat, ext) ∈ (λ e, (cat, e)) <$> get_extensions text).
    { apply list_elem_of_fmap. by exists ext. }
    assert (Hne : (cat, ext).2 ≠ "") by (simpl; by intros ->).
    destruct (first_cat_listed _ _ Hocc Hne) as [first Hfirst].
    simpl in Hfirst. rewrite Hlow in Hfirst. rewrite Hfirst.
    apply first_cat_Some in Hfirst as (e & He & _).
    apply list_elem_of_fmap in He as (e' & [= -> _] & _). done.
  - apply ext_index_warning_iff.
    rewrite occurrences_single, ext_keys_tidy; done.
Qed.

End BulkAdd.

(** ** More on conflicts and transfers *)

Section ConflictsMore.
Context {W : Type} `{FileSystem W}.

Lemma unique_path_loop_free (fuel : nat) (p : path) :
  ∀ (i : nat) (s s' : state W) (r : path),
    unique_path_loop fuel p i s = (Ret r, s') →
    s' = s
    ∧ path_exists r (world s) = false
    ∧ ∃ k : nat, (i ≤ k)%nat ∧ r = candidate p k
        ∧ ∀ j : nat, (i ≤ j < k)%nat →
            path_exists (candidate p j) (world s) = true.
Proof.
  induction fuel as [|fuel IH]; intros i s s' r Hloop; [done |].
  simpl in Hloop. unfold bind, observe, ret in Hloop.
  destruct (path_exists (candidate p i) (world s)) eqn:Htaken;
    simpl in Hloop.
  - destruct (IH _ _ _ _ Hloop) as (-> & Hfree & k & Hk & -> & Hbelow).
    split_and!; [done.. |]. exists k. split_and!; [lia | done |].
    intros j Hj. destruct (decide (j = i)) as [->|Hne]; [done |].
    apply Hbelow. lia.
  - injection Hloop as <- <-. split_and!; [done.. |].
    exists i. split_and!; [lia | done |]. intros j Hj. lia.
Qed.

(** Whenever the rename policy returns, it returns a path at which
    nothing exists, and the state is as before: the destination itself
    when that is free, and else the candidate with the least number
    that is free. *)
Theorem resolve_conflict_rename_free (fuel : nat) (destination : path)
    (s s' : state W) (r : option path) :
  resolve_conflict fuel destination "rename" s = (Ret r, s') →
  s' = s
  ∧ ∃ p, r = Some p
      ∧ path_exists p (world s) = false
      ∧ (p = destination
         ∨ path_exists destination (world s) = true
           ∧ ∃ k : nat, (1 ≤ k)%nat ∧ p = candidate destination k
               ∧ ∀ j : nat, (1 ≤ j < k)%nat →
                   path_exists (candidate destination j) (world s)
                   = true).
Proof.
  unfold resolve_conflict, unique_path, bind, observe, ret.
  destruct (path_exists destination (world s)) eqn:Hthere; simpl.
  - rewrite Hthere. simpl.
    destruct (unique_path_loop fuel destination 1 s) as [[p| |] s1]
      eqn:Hloop; [| done | done].
    intros [= <- <-].
    destruct (unique_path_loop_free _ _ _ _ _ _ Hloop)
      as (-> & Hfree & k & Hk & -> & Hbelow).
    split; [done |]. exists (candidate destination k).
    split_and!; [done.. |]. right. split; [done |]. by exists k.
  - intros [= <- <-]. split; [done |]. exists destination.
    split_and!; [done.. |]. by left.
Qed.

(** The overwrite policy always returns the destination: it tries once
    to remove what is there, a directory with [rmtree] and a file with
    [unlink], and a refused removal changes neither the answer nor the
    outcome. *)
Theorem resolve_conflict_overwrite (fuel : nat) (destination : path)
    (s : state W) :
  resolve_conflict fuel destination "overwrite" s
  = (Ret (Some destination),
     if path_exists destination (world s) then
       if path_is_dir destination (world s) then
         St (os_rmtree destination (world s)).2
            (trace s ++ [EvRmtree destination])
       else
         St (os_unlink destination (world s)).2
            (trace s ++ [EvUnlink destination])
     else s).
Proof.
  unfold resolve_conflict, try_except, bind, observe, prim, ret.
  destruct (path_exists destination (world s)) eqn:Hthere; simpl;
    [| done].
  rewrite Hthere. destruct (path_is_dir destination (world s)).
  - by destruct (os_rmtree _ _) as [[[]|e] w'].
  - by destruct (os_unlink _ _) as [[[]|e] w'].
Qed.

(** A real move or copy succeeds exactly when the [mkdir] and the
    transfer itself succeed and the append of the undo record raises
    nothing but an [OSError].  The record is appended exactly when
    [mkdir] and transfer succeed; an [OSError] of the append does not
    change the result, and an exception of another class, as a
    [UnicodeEncodeError] for a name that is no UTF-8 text, makes the
    result a failure although the file has been moved or copied. *)
Theorem do_transfer_real (src dst : path) (action : string)
    (s : state W) :
  action = "move" ∨ action = "copy" →
  let mk := os_mkdir_parents (parent dst) (world s) in
  let tr := os_transfer action src dst mk.2 in
  let ap := os_append UNDO_LOG_FILE (undo_record action src dst) tr.2 in
  (do_transfer src dst action false s).1
  = Ret (is_good mk.1 && is_good tr.1 && append_passes ap.1)
  ∧ trace (do_transfer src dst action false s).2
    = trace s ++ [EvMkdir (parent dst)]
      ++ (if is_good mk.1 then
            transfer_event action src dst
            :: (if is_good tr.1 then
                  [EvAppend UNDO_LOG_FILE (undo_record action src dst)]
                else [])
          else []).
Proof.
  intros Haction. simpl.
  unfold do_transfer, os_transfer, transfer_event, try_except, bind, prim,
    raise, ret.
  destruct (os_mkdir_parents (parent dst) (world s)) as [[[]|e] w1];
    simpl; [| by destruct e].
  assert (Hcase : String.eqb action "move" = true
                  ∨ (String.eqb action "move" = false
                     ∧ String.eqb action "copy" = true)).
  { destruct Haction as [-> | ->]; [by left | by right]. }
  destruct Hcase as [Hm | [Hm Hc]]; rewrite Hm; [| rewrite Hc]; simpl.
  - destruct (os_move src dst w1) as [[[]|e] w2]; simpl;
      [| destruct e; by rewrite <- app_assoc].
    rewrite log_undo_operation_eq. simpl.
    destruct (os_append _ _ _) as [[[]|e] w3]; simpl;
      [by rewrite <- !app_assoc |].
    destruct e as [[]| | |]; simpl; by rewrite <- !app_assoc.
  - destruct (os_copy2 src dst w1) as [[[]|e] w2]; simpl;
      [| destruct e; by rewrite <- app_assoc].
    rewrite log_undo_operation_eq. simpl.
    destruct (os_append _ _ _) as [[[]|e] w3]; simpl;
      [by rewrite <- !app_assoc |].
    destruct e as [[]| | |]; simpl; by rewrite <- !app_assoc.
Qed.

End ConflictsMore.

(** ** The lines of the undo log *)

Section LogLines.

Lemma append_cons (c : ascii) (a b : string) :
  String c a +:+ b = String c (a +:+ b).
Proof. done. Qed.

Lemma append_nil_l (b : string) : "" +:+ b = b.
Proof. done. Qed.

Lemma append_nil_r (s : string) : s +:+ "" = s.
Proof.
  induction s as [|c s IH]; [done |]. by rewrite append_cons, IH.
Qed.

Lemma append_assoc (a b c : string) : (a +:+ b) +:+ c = a +:+ (b +:+ c).
Proof.
  induction a as [|x a IH]; [done |]. by rewrite !append_cons, IH.
Qed.

Lemma str_rev_onto_app (s acc : string) :
  str_rev_onto acc s = str_rev s +:+ acc.
Proof.
  unfold str_rev. revert acc. induction s as [|c s IH]; intros acc; simpl;
    [done |].
  rewrite (IH (String c acc)), (IH (String c "")).
  by rewrite append_assoc.
Qed.

Lemma str_rev_cons (c : ascii) (s : string) :
  str_rev (String c s) = str_rev s +:+ String c "".
Proof. unfold str_rev at 1. simpl. apply str_rev_onto_app. Qed.

Lemma str_rev_app (a b : string) :
  str_rev (a +:+ b) = str_rev b +:+ str_rev a.
Proof.
  induction a as [|c a IH].
  - by rewrite append_nil_l, append_nil_r.
  - by rewrite append_cons, !str_rev_cons, IH, append_assoc.
Qed.

Lemma str_rev_involutive (s : string) : str_rev (str_rev s) = s.
Proof.
  induction s as [|c s IH]; [done |].
  by rewrite str_rev_cons, str_rev_app, IH.
Qed.

Lemma lstrip_id (s : string) : starts_space s = false → lstrip s = s.
Proof. destruct s as [|c s]; simpl; [done |]. by intros ->. Qed.

Lemma starts_space_app (a b : string) :
  a ≠ "" → starts_space (a +:+ b) = starts_space a.
Proof. by destruct a. Qed.

Lemma ends_space_app (a b : string) :
  b ≠ "" → ends_space (a +:+ b) = ends_space b.
Proof.
  intros Hb. unfold ends_space. rewrite str_rev_app.
  apply starts_space_app. intros Hrev.
  apply Hb. by rewrite <- (str_rev_involutive b), Hrev.
Qed.

(** [strip] takes the newline off a line that neither begins nor ends
    with white space, and nothing else. *)
Lemma strip_line (s : string) :
  starts_space s = false → ends_space s = false → strip (s +:+ nl) = s.
Proof.
  intros Hstart Hend. unfold strip.
  destruct s as [|c s]; [done |].
  rewrite (lstrip_id (String c s +:+ nl)) by done.
  rewrite str_rev_app.
  change (str_rev nl) with nl. unfold nl at 1.
  rewrite append_cons, append_nil_l. cbn [lstrip].
  change (ascii_isspace (ascii_of_nat 10)) with true. cbn iota.
  rewrite lstrip_id by done. apply str_rev_involutive.
Qed.

Lemma count_char_app (c : ascii) (a b : string) :
  count_char c (a +:+ b) = count_char c a + count_char c b.
Proof.
  induction a as [|x a IH]; [done |].
  rewrite append_cons. simpl. rewrite IH. lia.
Qed.


Lemma split_no_sep (sep : ascii) (s : string) :
  count_char sep s = 0 → split sep s = [s].
Proof.
  induction s as [|c s IH]; simpl; [done |].
  destruct (Ascii.eqb c sep); simpl; [done |].
  intros Hs. by rewrite IH.
Qed.

Lemma split_app_sep (sep : ascii) (a b : string) :
  count_char sep a = 0 →
  split sep (a +:+ String sep b) = a :: split sep b.
Proof.
  induction a as [|c a IH].
  - intros _. rewrite append_nil_l. simpl. by rewrite Ascii.eqb_refl.
  - rewrite append_cons. simpl.
    destruct (Ascii.eqb c sep); simpl; [done |].
    intros Ha. by rewrite IH.
Qed.

Lemma join_cons2 (sep x y : string) (l : list string) :
  join sep (x :: y :: l) = x +:+ sep +:+ join sep (y :: l).
Proof. done. Qed.

Lemma join_nonempty (x : string) (l : list string) :
  x ≠ "" → join "/" (x :: l) ≠ "".
Proof.
  intros Hx. destruct l as [|y l]; [done |]. rewrite join_cons2.
  destruct x as [|c x]; [done |]. by rewrite append_cons.
Qed.

Lemma count_char_join (c : ascii) (p : list string) :
  Ascii.eqb "/" c = false →
  Forall (λ x, count_char c x = 0) p →
  count_char c (join "/" p) = 0.
Proof.
  intros Hc Hall. induction Hall as [|x l Hx Hl IH]; [done |].
  destruct l as [|y l]; [done |].
  rewrite join_cons2, !count_char_app, Hx, IH.
  change (count_char c "/") with ((if Ascii.eqb "/" c then 1 else 0) + 0).
  by rewrite Hc.
Qed.

Lemma split_join (p : list string) :
  p ≠ [] → Forall (λ x, count_char "/" x = 0) p →
  split "/" (join "/" p) = p.
Proof.
  intros Hp Hall. induction Hall as [|x l Hx Hl IH]; [done |].
  destruct l as [|y l].
  - simpl. by apply split_no_sep.
  - rewrite join_cons2.
    change ("/" +:+ join "/" (y :: l))
      with (String "/" (join "/" (y :: l))).
    rewrite split_app_sep by done. f_equal. by apply IH.
Qed.

(** A path of plain components is read back from its string. *)
Lemma path_of_str_path_str (p : path) :
  Forall plain_component p → path_of_str (path_str p) = p.
Proof.
  intros Hall. unfold path_of_str, path_str.
  destruct p as [|x l]; [done |].
  rewrite split_join; [| done |].
  - generalize (x :: l) Hall. clear. intros p Hall.
    induction Hall as [|y l [Hy _] Hl IH]; [done |].
    rewrite filter_cons_True by done. by rewrite IH.
  - eapply Forall_impl; [exact Hall |]. by intros y (_ & Hy & _).
Qed.

Lemma ends_space_path_str (p : path) :
  Forall plain_component p → ends_space (path_str p) = ends_space (name p).
Proof.
  intros Hall. unfold path_str, name.
  induction Hall as [|x l [Hx _] Hl IH]; [done |].
  destruct l as [|y l]; [done |].
  rewrite join_cons2, <- append_assoc, ends_space_app.
  - rewrite IH. done.
  - apply join_nonempty. by inversion Hl as [|?? [? _]].
Qed.

(** The line that [log_undo_operation] writes for a move or a copy
    splits into its three fields. *)
Lemma undo_record_fields (action : string) (src dst : path) :
  action = "move" ∨ action = "copy" →
  Forall plain_component src → loggable dst →
  well_formed (undo_record action src dst)
              (upper action) (path_str src) (path_str dst).
Proof.
  intros Haction Hsrc [Hdst Hend]. unfold well_formed, undo_record.
  assert (Hup : upper action ≠ "" ∧ starts_space (upper action) = false
                ∧ count_char "|" (upper action) = 0).
  { destruct Haction as [-> | ->]; by vm_compute. }
  destruct Hup as (Hne & Hstart & Hbar).
  assert (Hbars : count_char "|" (path_str src) = 0).
  { apply count_char_join; [done |].
    eapply Forall_impl; [exact Hsrc |]. by intros x (_ & _ & Hx). }
  assert (Hbard : count_char "|" (path_str dst) = 0).
  { apply count_char_join; [done |].
    eapply Forall_impl; [exact Hdst |]. by intros x (_ & _ & Hx). }
  replace (upper action +:+ "|" +:+ path_str src +:+ "|" +:+ path_str dst
           +:+ nl)
    with ((upper action +:+ "|" +:+ path_str src +:+ "|" +:+ path_str dst)
          +:+ nl)
    by by rewrite !append_assoc.
  rewrite strip_line.
  - change ("|" +:+ path_str src +:+ "|" +:+ path_str dst)
      with (String "|" (path_str src +:+ String "|" (path_str dst))).
    rewrite split_app_sep by done. rewrite split_app_sep by done.
    by rewrite split_no_sep.
  - by rewrite starts_space_app.
  - destruct (decide (path_str dst = "")) as [Hempty|Hfull].
    + rewrite Hempty, append_nil_r.
      rewrite <- !append_assoc. by rewrite ends_space_app.
    + rewrite <- !append_assoc. rewrite ends_space_app by done.
      by rewrite ends_space_path_str.
Qed.

End LogLines.

(** ** Writing and reading the undo log *)

Section LogRoundTrip.
Context {W : Type} `{FileSystem W}.

(** The line written for a transfer from [src] to [dst] is undone as
    that transfer. *)
Lemma undo_line_restores_record (action : string) (src dst : path)
    (s : state W) :
  action = "move" ∨ action = "copy" →
  Forall plain_component src → loggable dst →
  undo_line (undo_record action src dst) s
  = if path_exists dst (world s) then
      let '(r1, w1) := os_mkdir_parents (parent src) (world s) in
      match r1 with
      | Bad _ =>
          (Ret (Some false), St w1 (trace s ++ [EvMkdir (parent src)]))
      | Good _ =>
          let '(r2, w2) := os_move dst src w1 in
          (Ret (Some (is_good r2)),
           St w2 ((trace s ++ [EvMkdir (parent src)]) ++ [EvMove dst src]))
      end
    else (Ret (Some false), s).
Proof.
  intros Haction Hsrc Hdst.
  pose proof (undo_record_fields action src dst Haction Hsrc Hdst)
    as Hfields.
  pose proof (path_of_str_path_str src Hsrc) as Hps.
  pose proof (path_of_str_path_str dst (proj1 Hdst)) as Hpd.
  destruct (path_exists dst (world s)) eqn:Hthere.
  - rewrite (undo_line_restore _ _ _ _ s Hfields)
      by by rewrite Hpd.
    by rewrite Hps, Hpd.
  - rewrite (undo_line_missing _ _ _ _ s Hfields); [done |].
    by rewrite Hpd.
Qed.

Lemma lines_from_nonempty (c : ascii) (s : string) :
  lines_from false (String c s) ≠ [].
Proof.
  simpl. destruct (Ascii.eqb c LF); [done |].
  destruct (Ascii.eqb c CR); [done |].
  by destruct (lines_from false s).
Qed.

(** A text that ends with a line feed is read line by line, whatever
    follows it. *)
Lemma lines_from_app (t r : string) :
  ∀ after_cr,
    lines_from after_cr (t +:+ String LF r)
    = lines_from after_cr (t +:+ nl) ++ lines_from false r.
Proof.
  induction t as [|c t IH]; intros after_cr.
  - rewrite !append_nil_l. unfold nl. change (ascii_of_nat 10) with LF.
    simpl. rewrite ?Ascii.eqb_refl. by destruct after_cr.
  - rewrite !append_cons. simpl.
    destruct (Ascii.eqb c LF).
    { rewrite IH. by destruct after_cr. }
    destruct (Ascii.eqb c CR).
    { by rewrite IH. }
    rewrite IH.
    destruct (lines_from false (t +:+ nl)) as [|l ls] eqn:Hl; [| done].
    exfalso. destruct t as [|c' t].
    + by rewrite append_nil_l in Hl.
    + rewrite append_cons in Hl. by apply lines_from_nonempty in Hl.
Qed.

(** A string without line breaks, followed by a line feed, is one
    line. *)
Lemma lines_from_one_line (body : string) :
  one_line body → lines_from false (body +:+ nl) = [body +:+ nl].
Proof.
  intros [Hlf Hcr]. induction body as [|c body IH]; [done |].
  rewrite append_cons. simpl in *.
  destruct (Ascii.eqb c LF); [done |].
  destruct (Ascii.eqb c CR); [done |].
  by rewrite IH.
Qed.

Lemma one_line_path_str (p : path) :
  Forall line_component p → one_line (path_str p).
Proof.
  intros Hall. split; (apply count_char_join; [done |]);
    (eapply Forall_impl; [exact Hall |]); by intros x (_ & ? & ?).
Qed.

Lemma ends_plain_no_space (s : string) :
  ends_plain s = true → ends_space s = false.
Proof.
  unfold ends_plain, ends_space, starts_space.
  destruct (str_rev s) as [|c r]; [done |].
  intros [_ Hc]%andb_true_iff. by apply negb_true_iff.
Qed.

(** The record of a transfer from [src] to [dst] comes back from the
    log as it went in.  Appended to a log that is empty or ends with a
    line feed, it is read as one more line, the record itself, behind
    the lines that were there; and the undo pass takes that line for
    the transfer: when [dst] still exists it makes the parent of [src]
    and moves [dst] to [src], the line being a success exactly when
    both succeed, and when [dst] is gone the line is a failure that
    leaves the state alone. *)
Theorem undo_record_read_back (action : string) (src dst : path)
    (text : string) (s : state W) :
  action = "move" ∨ action = "copy" →
  Forall line_component src → recordable dst →
  (text = "" ∨ ∃ t, text = t +:+ nl) →
  readlines (text +:+ undo_record action src dst)
  = readlines text ++ [undo_record action src dst]
  ∧ undo_line (undo_record action src dst) s
    = if path_exists dst (world s) then
        let '(r1, w1) := os_mkdir_parents (parent src) (world s) in
        match r1 with
        | Bad _ =>
            (Ret (Some false), St w1 (trace s ++ [EvMkdir (parent src)]))
        | Good _ =>
            let '(r2, w2) := os_move dst src w1 in
            (Ret (Some (is_good r2)),
             St w2 ((trace s ++ [EvMkdir (parent src)])
                    ++ [EvMove dst src]))
        end
      else (Ret (Some false), s).
Proof.
  intros Haction Hsrc [Hdst Hend] Htext. split.
  - assert (Hone : readlines (undo_record action src dst)
                   = [undo_record action src dst]).
    { unfold readlines, undo_record.
      rewrite <- !append_assoc. apply lines_from_one_line.
      destruct (one_line_path_str src Hsrc) as [Hs1 Hs2].
      destruct (one_line_path_str dst Hdst) as [Hd1 Hd2].
      assert (Hup : one_line (upper action)).
      { destruct Haction as [-> | ->]; by vm_compute. }
      destruct Hup as [Hu1 Hu2].
      split; rewrite !count_char_app; simpl; lia. }
    destruct Htext as [-> | [t ->]].
    + by rewrite append_nil_l.
    + unfold readlines in *. unfold nl at 1.
      rewrite append_assoc, append_cons, append_nil_l.
      change (ascii_of_nat 10) with LF.
      by rewrite lines_from_app, Hone.
  - apply undo_line_restores_record; [done | |].
    + eapply Forall_impl; [exact Hsrc |]. by intros x [? _].
    + split; [| by apply ends_plain_no_space].
      eapply Forall_impl; [exact Hdst |]. by intros x [? _].
Qed.





(** After a line for a transfer to [dst] is the last of the log,
    [get_last_undo_destination] answers [dst] as a string. *)
Theorem get_last_undo_destination_reads (action : string)
    (src dst : path) (earlier : list string) (st_size : Z) (w' : W)
    (s : state W) :
  action = "move" ∨ action = "copy" →
  Forall plain_component src → loggable dst →
  path_exists UNDO_LOG_FILE (world s) = true →
  os_stat_size UNDO_LOG_FILE (world s) = Good st_size →
  st_size ≠ 0%Z →
  os_readlines UNDO_LOG_FILE (world s)
  = (Fine (earlier ++ [undo_record action src dst]), w') →
  get_last_undo_destination s
  = (Ret (path_str dst), St w' (trace s ++ [EvReadLines UNDO_LOG_FILE])).
Proof.
  intros Haction Hsrc Hdst Hthere Hstat Hsize Hread.
  pose proof (undo_record_fields action src dst Haction Hsrc Hdst)
    as Hfields. unfold well_formed in Hfields.
  unfold get_last_undo_destination, try_except, bind, observe, query,
    call, ret.
  rewrite Hthere. simpl. rewrite Hstat.
  destruct (Z.eqb_spec st_size 0) as [|_]; [done |].
  rewrite Hread. simpl.
  destruct (earlier ++ [undo_record action src dst]) as [|l ls] eqn:Hl.
  { by destruct earlier. }
  rewrite <- Hl, last_last, Hfields. done.
Qed.

End LogRoundTrip.

(** ** More on the undo pass and on runs *)

Section RunsMore.
Context {W : Type} `{FileSystem W}.

(** With a progress callback that returns normally, an undo pass
    returns statistics, whatever the log holds and whatever [mkdir],
    move and [unlink] refuse, and in them [succeeded + failed = total];
    but for one case: when the read of the log raises an exception that
    is no [OSError], the pass raises that exception after the failed
    read.  The tests of existence are taken to answer. *)
Theorem perform_undo_returns (cb : option (nat → nat → option exn))
    (s : state W) :
  quiet cb →
  (∃ st s',
     perform_undo cb s = (Ret st, s')
     ∧ (u_succeeded st + u_failed st = u_total st)%nat)
  ∨ (∃ e w1,
       path_exists UNDO_LOG_FILE (world s) = true
       ∧ os_readlines UNDO_LOG_FILE (world s) = (Fails e, w1)
       ∧ is_OSError e = false
       ∧ perform_undo cb s
         = (Raise e, St w1 (trace s ++ [EvReadLines UNDO_LOG_FILE]))).
Proof.
  intros Hq. unfold perform_undo, try_except, bind, observe, call.
  destruct (path_exists UNDO_LOG_FILE (world s)); simpl.
  - destruct (os_readlines UNDO_LOG_FILE (world s)) as [[lines|e] w1];
      simpl.
    + left.
      destruct (undo_loop_run cb (length lines) (rev lines) Hq 1 0 0
                  (St w1 (trace s ++ [EvReadLines UNDO_LOG_FILE])))
        as (oks & s_loop & _ & -> & Hlen).
      rewrite clear_undo_log_eq. unfold ret. simpl.
      eexists _, _. split; [done |]. simpl.
      rewrite tally_total, Hlen. apply length_rev.
    + destruct (is_OSError e) eqn:He.
      * left. unfold ret. eauto.
      * right. by exists e, w1.
  - left. destruct (call_undo_progress_quiet cb 0 0 s Hq) as (s1 & ->).
    unfold ret. eauto.
Qed.

(** A run that reports no file, be it for an error or for an empty
    source, has changed nothing and processed nothing. *)
Theorem process_directory_nothing_to_do (fuel : nat) (kw : params)
    (s s' : state W) (st : run_stats) :
  process_directory fuel kw s = (Ret st, s') →
  total st = 0 →
  s' = s ∧ processed st = 0 ∧ succeeded st = 0 ∧ failed st = 0
  ∧ skipped st = 0.
Proof.
  unfold process_directory, validate_paths.
  rewrite bind_observe.
  match goal with |- context [negb ?v] => destruct v end; simpl;
    [| unfold ret; by intros [= <- <-]].
  destruct (ORGANIZERS (mode kw)) as [organizer_func|];
    [| unfold ret; by intros [= <- <-]].
  unfold bind at 1, ask.
  destruct (os_list_files _ _ _ _) as [listed|e]; [| done].
  destruct (length (default listed (files kw)) =? 0)%nat eqn:Hlen;
    [unfold ret; by intros [= <- <-] |].
  unfold bind, call, ret.
  destruct (os_load_categories (world s)) as [[loaded|e] w1]; simpl;
    [| done].
  match goal with |- context [run_loop ?f ?fu ?k ?e ?t ?i ?l ?c ?s0] =>
    destruct (run_loop f fu k e t i l c s0) as [[c'| |] s2]
  end; [| done | done].
  intros [= <- <-] Htotal. simpl in Htotal.
  apply Nat.eqb_neq in Hlen. done.
Qed.

Lemma run_loop_processed (organizer_func : organizer) (fuel : nat)
    (kw : params) (ext_index : gmap string string) (total : nat)
    (items : list path) :
  ∀ (idx : nat) (c c' : counters) (s s' : state W),
    run_loop organizer_func fuel kw ext_index total idx items c s
    = (Ret c', s') →
    ((∀ i : nat, (idx ≤ i < idx + length items)%nat →
        is_cancelled kw i = false) →
     c_processed c' = (c_processed c + length items)%nat)
    ∧ (∀ k : nat, (idx ≤ k < idx + length items)%nat →
         (∀ i : nat, (idx ≤ i < k)%nat → is_cancelled kw i = false) →
         is_cancelled kw k = true →
         c_processed c' = (c_processed c + (k - idx))%nat).
Proof.
  induction items as [|item rest IH]; intros idx c c' s s' Hrun.
  - simpl in Hrun. unfold ret in Hrun. injection Hrun as <- <-.
    split; [simpl; lia |]. intros k Hk. simpl in Hk. lia.
  - simpl in Hrun. destruct (is_cancelled kw idx) eqn:Hcancel.
    + unfold ret in Hrun. injection Hrun as <- <-. split.
      * intros Hnone. rewrite Hnone in Hcancel; [done | simpl; lia].
      * intros k Hk Hbefore Hset.
        destruct (decide (k = idx)) as [->|Hne]; [lia |].
        rewrite Hbefore in Hcancel; [done | lia].
    + unfold bind in Hrun.
      destruct (organizer_func fuel item (dest kw) ext_index kw s)
        as [[result| |] s1]; [| done | done].
      destruct (call_run_progress kw idx total item result s1)
        as [[[]| |] s2]; [| done | done].
      destruct (IH _ _ _ _ _ Hrun) as [Hall Hcut]. split.
      * intros Hnone. rewrite Hall; [simpl; lia |].
        intros i Hi. apply Hnone. simpl. lia.
      * intros k Hk Hbefore Hset.
        destruct (decide (k = idx)) as [->|Hne]; [congruence |].
        rewrite (Hcut k); [simpl; lia | simpl in Hk; lia | | done].
        intros i Hi. apply Hbefore. lia.
Qed.

Lemma process_directory_run (fuel : nat) (kw : params) (s s' : state W)
    (st : run_stats) :
  process_directory fuel kw s = (Ret st, s') →
  error st = None →
  total st = length (files_of kw s)
  ∧ ((∀ i, is_cancelled kw i = false) → processed st = total st)
  ∧ (∀ k : nat, (1 ≤ k ≤ total st)%nat →
       (∀ i : nat, (1 ≤ i < k)%nat → is_cancelled kw i = false) →
       is_cancelled kw k = true →
       processed st = (k - 1)%nat).
Proof.
  unfold process_directory, validate_paths.
  rewrite bind_observe.
  match goal with |- context [negb ?v] => destruct v end; simpl;
    [| unfold ret; by intros [= <- <-]].
  destruct (ORGANIZERS (mode kw)) as [organizer_func|];
    [| unfold ret; by intros [= <- <-]].
  unfold files_of. unfold bind at 1, ask.
  destruct (os_list_files _ _ _ _) as [listed|e]; [| done].
  destruct (length (default listed (files kw)) =? 0)%nat eqn:Hlen.
  { unfold ret. intros [= <- <-] _. apply Nat.eqb_eq in Hlen.
    simpl. split_and!; [done.. |]. intros k Hk. lia. }
  unfold bind, call, ret.
  destruct (os_load_categories (world s)) as [[loaded|e] w1]; simpl;
    [| done].
  match goal with |- context [run_loop ?f ?fu ?k ?e ?t ?i ?l ?c ?s0] =>
    destruct (run_loop f fu k e t i l c s0) as [[c'| |] s2] eqn:Hrun
  end; [| done | done].
  intros [= <- <-] _. simpl.
  destruct (run_loop_processed _ _ _ _ _ _ _ _ _ _ _ Hrun)
    as [Hall Hcut]. simpl in *.
  split_and!; [done | |].
  - intros Hnone. apply Hall. intros i _. apply Hnone.
  - intros k Hk Hbefore Hset. rewrite (Hcut k); [lia | lia | done..].
Qed.

(** A run that is never cancelled and returns has processed every file:
    [processed] equals [total], the number of files of the run. *)
Theorem process_directory_uncancelled (fuel : nat) (kw : params)
    (s s' : state W) (st : run_stats) :
  process_directory fuel kw s = (Ret st, s') →
  error st = None →
  (∀ i, is_cancelled kw i = false) →
  total st = length (files_of kw s) ∧ processed st = total st.
Proof.
  intros Hrun Herr Hnone.
  destruct (process_directory_run fuel kw s s' st Hrun Herr)
    as (Htotal & Hall & _).
  split; [done | by apply Hall].
Qed.

(** A run whose cancellation is first seen before file [k] has
    processed the [k - 1] files before it and no other, while [total]
    still counts them all. *)
Theorem process_directory_cancelled (fuel : nat) (kw : params)
    (s s' : state W) (st : run_stats) (k : nat) :
  process_directory fuel kw s = (Ret st, s') →
  error st = None →
  (1 ≤ k ≤ total st)%nat →
  (∀ i : nat, (1 ≤ i < k)%nat → is_cancelled kw i = false) →
  is_cancelled kw k = true →
  total st = length (files_of kw s) ∧ processed st = (k - 1)%nat.
Proof.
  intros Hrun Herr Hk Hbefore Hset.
  destruct (process_directory_run fuel kw s s' st Hrun Herr)
    as (Htotal & _ & Hcut).
  split; [done | by apply Hcut].
Qed.

End RunsMore.

(** ** The steps of a dry run *)

Section DryRun.
Context {W : Type} `{FileSystem W}.
Variable removals : bool.

Let P := dry_event removals.

Lemma do_transfer_dry_spec (src dst : path) (action : string) :
  spec P (λ _, True) (do_transfer src dst action true).
Proof.
  unfold do_transfer.
  repeat (apply spec_try_except; [| intros; by apply spec_ret]).
  eapply spec_bind; [by apply spec_prim |].
  intros _ _. by apply spec_ret.
Qed.

Lemma unique_path_loop_dry_spec (fuel : nat) (p : path) :
  ∀ i, spec P (λ _, True) (unique_path_loop fuel p i).
Proof.
  induction fuel as [|fuel IH]; intros i; simpl.
  - apply spec_diverge.
  - eapply spec_bind; [by apply (spec_observe P (λ _, True)) |].
    intros taken _. destruct taken; simpl; [apply IH | by apply spec_ret].
Qed.

Lemma resolve_conflict_dry_spec (fuel : nat) (destination : path)
    (conflict_policy : string) :
  (conflict_policy = "overwrite" → removals = true) →
  spec P (λ _, True) (resolve_conflict fuel destination conflict_policy).
Proof.
  intros Hrm. unfold resolve_conflict.
  eapply spec_bind; [by apply (spec_observe P (λ _, True)) |].
  intros there _. destruct there; simpl; [| by apply spec_ret].
  destruct (String.eqb conflict_policy "skip"); [by apply spec_ret |].
  destruct (String.eqb_spec conflict_policy "overwrite") as [Hov|_].
  { eapply spec_bind with (Q := λ _, True); [| intros; by apply spec_ret].
    apply spec_try_except; [| intros; by apply spec_ret].
    eapply spec_bind; [by apply (spec_observe P (λ _, True)) |].
    intros still _. destruct still; [| by apply spec_ret].
    eapply spec_bind; [by apply (spec_observe P (λ _, True)) |].
    intros isd _. destruct isd; apply spec_prim; simpl; by apply Hrm. }
  destruct (String.eqb conflict_policy "rename"); [| apply spec_raise].
  unfold unique_path. eapply spec_bind with (Q := λ _, True);
    [| intros; by apply spec_ret].
  eapply spec_bind; [by apply (spec_observe P (λ _, True)) |].
  intros there _. destruct there; simpl;
    [apply unique_path_loop_dry_spec | by apply spec_ret].
Qed.

Lemma resolve_and_transfer_dry_spec (fuel : nat) (file dest_file : path)
    (kw : params) :
  dry_run kw = true →
  (conflict_policy kw = "overwrite" → removals = true) →
  spec P (λ _, True) (resolve_and_transfer fuel file dest_file kw).
Proof.
  intros Hdry Hrm. unfold resolve_and_transfer.
  eapply spec_bind; [by apply resolve_conflict_dry_spec |].
  intros [d|] _; [| by apply spec_ret]. rewrite Hdry.
  eapply spec_bind; [apply do_transfer_dry_spec |].
  intros ok _. by apply spec_ret.
Qed.

Lemma organizer_dry_spec (fuel : nat) (kw : params)
    (organizer_func : organizer) (file root : path)
    (ext_index : gmap string string) :
  ORGANIZERS (mode kw) = Some organizer_func →
  dry_run kw = true →
  (conflict_policy kw = "overwrite" → removals = true) →
  spec P (λ _, True) (organizer_func fuel file root ext_index kw).
Proof.
  intros Hmode Hdry Hrm. unfold ORGANIZERS in Hmode.
  repeat (destruct (String.eqb (mode kw) _) in Hmode;
          [injection Hmode as <- | ]); [..| done].
  - unfold organize_by_type.
    destruct (ext_index !! _) as [c|]; [| destruct (skip_unknown kw)].
    + by apply resolve_and_transfer_dry_spec.
    + by apply spec_ret.
    + by apply resolve_and_transfer_dry_spec.
  - by apply resolve_and_transfer_dry_spec.
  - apply spec_try_except; [| intros; by apply spec_ret].
    eapply spec_bind; [apply spec_query |]. intros date _.
    by apply resolve_and_transfer_dry_spec.
  - apply spec_try_except; [| intros; by apply spec_ret].
    eapply spec_bind; [apply spec_query |]. intros date _.
    by apply resolve_and_transfer_dry_spec.
  - apply spec_try_except; [| intros; by apply spec_ret].
    eapply spec_bind; [apply spec_query |]. intros st_size _.
    by apply resolve_and_transfer_dry_spec.
  - by apply resolve_and_transfer_dry_spec.
Qed.

Lemma call_run_progress_dry_spec (kw : params) (idx total : nat)
    (item : path) (result : option bool) :
  spec P (λ _, True)
       (call_run_progress kw idx total item result : M W unit).
Proof.
  unfold call_run_progress. destruct (on_progress kw) as [f|];
    [| by apply spec_ret].
  eapply spec_bind; [by apply spec_emit |]. intros _ _.
  destruct (f idx total item result); [apply spec_raise | by apply spec_ret].
Qed.

Lemma run_loop_dry_spec (organizer_func : organizer) (fuel : nat)
    (kw : params) (ext_index : gmap string string) (total : nat)
    (items : list path) :
  ORGANIZERS (mode kw) = Some organizer_func →
  dry_run kw = true →
  (conflict_policy kw = "overwrite" → removals = true) →
  ∀ idx c,
    spec P (λ _, True)
         (run_loop organizer_func fuel kw ext_index total idx items c).
Proof.
  intros Hmode Hdry Hrm. induction items as [|item rest IH]; intros idx c.
  - by apply spec_ret.
  - simpl. destruct (is_cancelled kw idx); [by apply spec_ret |].
    eapply spec_bind; [by apply organizer_dry_spec |].
    intros result _.
    eapply spec_bind; [apply call_run_progress_dry_spec |]. intros _ _.
    apply IH.
Qed.

Lemma process_directory_dry_spec (fuel : nat) (kw : params) :
  dry_run kw = true →
  (conflict_policy kw = "overwrite" → removals = true) →
  spec P (λ _, True) (process_directory fuel kw).
Proof.
  intros Hdry Hrm. unfold process_directory, validate_paths.
  eapply spec_bind; [by apply (spec_observe P (λ _, True)) |].
  intros v _. destruct (negb v.1); [by apply spec_ret |].
  destruct (ORGANIZERS (mode kw)) as [organizer_func|] eqn:Hmode;
    [| by apply spec_ret].
  eapply spec_bind; [by apply spec_ask |].
  intros listed _.
  destruct (length (default listed (files kw)) =? 0)%nat;
    [by apply spec_ret |].
  eapply spec_bind; [by apply spec_call |]. intros loaded _.
  eapply spec_bind; [by apply run_loop_dry_spec |].
  intros c _. by apply spec_ret.
Qed.

End DryRun.

Section DryRunTheorem.
Context {W : Type} `{FileSystem W}.

(** A dry run never moves or copies a file and never writes to the undo
    log: its steps are the loading of the categories, the making of
    directories and the calls of the progress callback.  Only under the
    overwrite policy does it also remove the destinations that are in
    the way, which a dry run does as a real run would. *)
Theorem process_directory_dry_run (fuel : nat) (kw : params)
    (s : state W) :
  dry_run kw = true →
  ∃ evs,
    trace (process_directory fuel kw s).2 = trace s ++ evs
    ∧ Forall (dry_event (String.eqb (conflict_policy kw) "overwrite")) evs.
Proof.
  intros Hdry.
  apply (process_directory_dry_spec
           (String.eqb (conflict_policy kw) "overwrite") fuel kw Hdry).
  intros ->. done.
Qed.

End DryRunTheorem.

(** ** More on the classifiers *)

Section ClassifiersMore.
Context {W : Type} `{FileSystem W}.

Lemma resolve_and_transfer_unknown_policy (fuel : nat)
    (file dest_file : path) (kw : params) (s : state W) :
  path_exists dest_file (world s) = true →
  ¬ known_policy (conflict_policy kw) →
  resolve_and_transfer fuel file dest_file kw s
  = (Raise (unknown_policy_error (conflict_policy kw)), s).
Proof.
  intros Hthere Hpol.
  unfold resolve_and_transfer, resolve_conflict, bind, observe, raise.
  rewrite Hthere. simpl.
  destruct (String.eqb_spec (conflict_policy kw) "skip") as [Hp|_].
  { exfalso. apply Hpol. by left. }
  destruct (String.eqb_spec (conflict_policy kw) "overwrite") as [Hp|_].
  { exfalso. apply Hpol. right. by left. }
  destruct (String.eqb_spec (conflict_policy kw) "rename") as [Hp|_].
  { exfalso. apply Hpol. right. by right. }
  done.
Qed.

(** With a conflict policy that is none of skip, overwrite and rename,
    a file whose destination exists makes the classifiers by type, by
    name and by first letter raise the [ValueError] of
    [resolve_conflict], with nothing changed. *)
Theorem unknown_policy_raises (fuel : nat) (file dest_root : path)
    (ext_index : gmap string string) (kw : params) (s : state W) :
  ¬ known_policy (conflict_policy kw) →
  (∀ cat, ext_index !! lower (suffix file) = Some cat →
     path_exists (pjoin (pjoin dest_root cat) (name file)) (world s)
     = true →
     organize_by_type fuel file dest_root ext_index kw s
     = (Raise (unknown_policy_error (conflict_policy kw)), s))
  ∧ (path_exists (pjoin (pjoin dest_root (stem file)) (name file))
       (world s) = true →
     organize_by_name fuel file dest_root ext_index kw s
     = (Raise (unknown_policy_error (conflict_policy kw)), s))
  ∧ (path_exists
       (pjoin (pjoin dest_root (first_letter_category file)) (name file))
       (world s) = true →
     organize_by_first_letter fuel file dest_root ext_index kw s
     = (Raise (unknown_policy_error (conflict_policy kw)), s)).
Proof.
  intros Hpol. split_and!.
  - intros cat Hcat Hthere. unfold organize_by_type. rewrite Hcat.
    by apply resolve_and_transfer_unknown_policy.
  - intros Hthere. by apply resolve_and_transfer_unknown_policy.
  - intros Hthere.
    by apply (resolve_and_transfer_unknown_policy fuel file
                (pjoin (pjoin dest_root (first_letter_category file))
                       (name file))).
Qed.

(** With such a policy the classifiers by date, by day and by size do
    not raise: their own handler turns the [ValueError] into a failed
    file, with nothing changed. *)
Theorem unknown_policy_fails_file (fuel : nat) (file dest_root : path)
    (ext_index : gmap string string) (kw : params) (s : state W) :
  ¬ known_policy (conflict_policy kw) →
  (∀ date, os_stat_mtime file (world s) = Good date →
     path_exists (date_dest_file date file dest_root) (world s) = true →
     organize_by_date fuel file dest_root ext_index kw s
     = (Ret (Some false), s))
  ∧ (∀ date, os_stat_mtime file (world s) = Good date →
     path_exists (day_dest_file date file dest_root) (world s) = true →
     organize_by_day fuel file dest_root ext_index kw s
     = (Ret (Some false), s))
  ∧ (∀ st_size, os_stat_size file (world s) = Good st_size →
     path_exists (size_dest_file st_size file dest_root) (world s) = true →
     organize_by_size fuel file dest_root ext_index kw s
     = (Ret (Some false), s)).
Proof.
  intros Hpol. split_and!.
  - intros date Hstat Hthere. unfold organize_by_date, try_except.
    unfold bind at 1, query. rewrite Hstat.
    pose proof (resolve_and_transfer_unknown_policy fuel file
                  (date_dest_file date file dest_root) kw s Hthere Hpol)
      as Hraise.
    unfold resolve_and_transfer, date_dest_file in Hraise.
    by rewrite Hraise.
  - intros date Hstat Hthere. unfold organize_by_day, try_except.
    unfold bind at 1, query. rewrite Hstat.
    pose proof (resolve_and_transfer_unknown_policy fuel file
                  (day_dest_file date file dest_root) kw s Hthere Hpol)
      as Hraise.
    unfold resolve_and_transfer, day_dest_file in Hraise.
    by rewrite Hraise.
  - intros st_size Hstat Hthere. unfold organize_by_size, try_except.
    unfold bind at 1, query. rewrite Hstat.
    pose proof (resolve_and_transfer_unknown_policy fuel file
                  (size_dest_file st_size file dest_root) kw s Hthere Hpol)
      as Hraise.
    unfold resolve_and_transfer, size_dest_file in Hraise.
    by rewrite Hraise.
Qed.

(** A file whose modification time or size cannot be read is a failed
    file for the classifiers by date, by day and by size, and nothing
    is changed. *)
Theorem stat_failure_fails_file (fuel : nat) (file dest_root : path)
    (ext_index : gmap string string) (kw : params) (s : state W)
    (e : oserror) :
  (os_stat_mtime file (world s) = Bad e →
   organize_by_date fuel file dest_root ext_index kw s
   = (Ret (Some false), s)
   ∧ organize_by_day fuel file dest_root ext_index kw s
     = (Ret (Some false), s))
  ∧ (os_stat_size file (world s) = Bad e →
     organize_by_size fuel file dest_root ext_index kw s
     = (Ret (Some false), s)).
Proof.
  split.
  - intros Hstat. split.
    + unfold organize_by_date, try_except. unfold bind at 1, query.
      by rewrite Hstat.
    + unfold organize_by_day, try_except. unfold bind at 1, query.
      by rewrite Hstat.
  - intros Hstat. unfold organize_by_size, try_except.
    unfold bind at 1, query. by rewrite Hstat.
Qed.

Lemma substring_0_0 (s : string) : substring 0 0 s = "".
Proof. by destruct s. Qed.

Lemma first_char_ascii (c : ascii) (rest : string) :
  byte_in 0 127 c = true → first_char (String c rest) = String c "".
Proof.
  intros Hc. unfold first_char, utf8_char_len. rewrite Hc. simpl.
  by rewrite ?substring_0_0.
Qed.

(** For an ASCII character the tables are those of ASCII. *)
Lemma ascii_letter_folder (c : ascii) :
  byte_in 0 127 c = true →
  (if str_isalpha (char_upper (String c ""))
   then char_upper (String c "") else "#")
  = if ascii_isalpha c then String (ascii_upper c) "" else "#".
Proof.
  intros Hc. unfold char_upper, utf8_char_len. rewrite Hc.
  unfold str_isalpha.
  destruct c as [[] [] [] [] [] [] [] []];
    first [discriminate Hc | reflexivity].
Qed.

(** The bytes of the first character are a character. *)
Lemma utf8_char_len_first (s : string) (n : nat) :
  utf8_char_len s = Some n → utf8_char_len (substring 0 n s) = Some n.
Proof.
  destruct s as [|c0 s1]; [done |]. simpl.
  destruct (byte_in 0 127 c0) eqn:H0.
  { intros [= <-]. simpl. rewrite ?substring_0_0. simpl. by rewrite H0. }
  destruct s1 as [|c1 s2]; [done |].
  destruct (byte_in 194 223 c0) eqn:H1.
  { destruct (byte_in 128 191 c1) eqn:H2; [| done].
    intros [= <-]. simpl. rewrite ?substring_0_0. simpl.
    by rewrite H0, H1, H2. }
  destruct s2 as [|c2 s3]; [done |].
  destruct (byte_in 224 239 c0) eqn:H2.
  { match goal with |- (if ?b then _ else _) = _ → _ =>
      destruct b eqn:H3 end; [| done].
    intros [= <-]. simpl. rewrite ?substring_0_0. simpl.
    by rewrite H0, H1, H2, H3. }
  destruct s3 as [|c3 s4]; [done |].
  match goal with |- (if ?b then _ else _) = _ → _ =>
    destruct b eqn:H3 end; [| done].
  intros [= <-]. simpl. rewrite ?substring_0_0. simpl.
  by rewrite H0, H1, H2, H3.
Qed.

(** A string that begins with a byte that begins no character is no
    UTF-8 text. *)
Lemma utf8_text_ill_formed (s : string) :
  s ≠ "" → utf8_char_len s = None → utf8_text s = false.
Proof.
  intros Hs Hlen. unfold utf8_text.
  destruct s as [|c s]; [done |]. cbn [String.length utf8_text_from].
  by rewrite Hlen.
Qed.

(** The folder of [organize_by_first_letter] is decided by the first
    character of the stem alone.  A file is filed under
    [dest_root / folder / name], where the folder is [#] for an empty
    stem; for a stem that begins with an ASCII character, that
    character in upper case when it is a letter and [#] when it is not;
    for a stem that begins with another character, the upper-case form
    that the interpreter gives for it when that form consists of
    letters, and [#] when it does not; and [#] for a stem that begins
    with a byte that is no character. *)
Theorem organize_by_first_letter_folder (fuel : nat)
    (file dest_root : path) (ext_index : gmap string string)
    (kw : params) :
  (organize_by_first_letter fuel file dest_root ext_index kw
     : M W (option bool))
  = resolve_and_transfer fuel file
      (pjoin (pjoin dest_root (first_letter_category file)) (name file)) kw
  ∧ (stem file = "" → first_letter_category file = "#")
  ∧ (∀ c rest, stem file = String c rest → byte_in 0 127 c = true →
       first_letter_category file
       = if ascii_isalpha c then String (ascii_upper c) "" else "#")
  ∧ (∀ n, utf8_char_len (stem file) = Some n → (1 < n)%nat →
       first_letter_category file
       = if str_isalpha (uni_upper (substring 0 n (stem file)))
         then uni_upper (substring 0 n (stem file)) else "#")
  ∧ (stem file ≠ "" → utf8_char_len (stem file) = None →
       first_letter_category file = "#").
Proof.
  split_and!.
  - done.
  - unfold first_letter_category. by intros ->.
  - intros c rest Hstem Hc. unfold first_letter_category.
    rewrite Hstem, first_char_ascii by done.
    by apply ascii_letter_folder.
  - intros n Hlen Hn. unfold first_letter_category.
    destruct (stem file) as [|c rest] eqn:Hstem; [done |].
    unfold first_char. rewrite Hlen. unfold char_upper.
    rewrite (utf8_char_len_first _ _ Hlen).
    destruct n as [|[|n]]; [lia | lia | done].
  - intros Hne Hlen. unfold first_letter_category.
    destruct (stem file) as [|c rest] eqn:Hstem; [done |].
    unfold first_char. rewrite Hlen. unfold char_upper.
    assert (Hc : byte_in 0 127 c = false).
    { unfold utf8_char_len in Hlen. by destruct (byte_in 0 127 c). }
    assert (Hone : utf8_char_len (substring 0 1 (String c rest)) = None).
    { simpl. rewrite ?substring_0_0. simpl. by rewrite Hc. }
    rewrite Hone. unfold str_isalpha.
    simpl. rewrite ?substring_0_0. simpl. rewrite Hc. simpl.
    assert (Hbyte : utf8_char_len (String c "") = None).
    { simpl. by rewrite Hc. }
    by rewrite (utf8_text_ill_formed (String c "")).
Qed.

End ClassifiersMore.

(** ** Classification by type and the validation of paths *)

Section TypeAndValidation.
Context {W : Type} `{FileSystem W}.

(** Classification by type does not look at the case of the suffix:
    a file whose suffix agrees in lower case with a non-empty extension
    of the map goes to the category that lists that extension first. *)
Theorem organize_by_type_listed (fuel : nat) (cats : categories)
    (cat e : string) (file dest_root : path) (kw : params) :
  (cat, e) ∈ occurrences cats → e ≠ "" →
  lower (suffix file) = lower e →
  ∃ first,
    first_cat (lower e) (occurrences cats) = Some first
    ∧ (organize_by_type fuel file dest_root (build_ext_index cats).1 kw
         : M W (option bool))
      = resolve_and_transfer fuel file
          (pjoin (pjoin dest_root first) (name file)) kw.
Proof.
  intros Hin Hne Hsuffix.
  destruct (first_cat_listed (cat, e) _ Hin Hne) as [first Hfirst].
  simpl in Hfirst. exists first. split; [done |].
  unfold organize_by_type. rewrite build_ext_index_fst.
  destruct (ext_index_scan_spec cats) as [Hidx _].
  by rewrite Hidx, Hsuffix, Hfirst.
Qed.

(** A file whose suffix is no extension of the map, a file without a
    suffix among them, goes to the category Others, or is skipped with
    nothing done when [skip_unknown] is set. *)
Theorem organize_by_type_unlisted (fuel : nat) (cats : categories)
    (file dest_root : path) (kw : params) :
  lower (suffix file) ∉ ext_keys (occurrences cats) →
  (organize_by_type fuel file dest_root (build_ext_index cats).1 kw
     : M W (option bool))
  = if skip_unknown kw then ret None
    else resolve_and_transfer fuel file
           (pjoin (pjoin dest_root "Others") (name file)) kw.
Proof.
  intros Hout. apply first_cat_None in Hout.
  unfold organize_by_type. rewrite build_ext_index_fst.
  destruct (ext_index_scan_spec cats) as [Hidx _].
  rewrite Hidx, Hout. by destruct (skip_unknown kw).
Qed.

Lemma find_none_iff {A} (f : A → bool) (l : list A) :
  List.find f l = None ↔ ∀ x, x ∈ l → f x = false.
Proof.
  induction l as [|y l IH]; simpl.
  - split; [| done]. intros _ x Hx. by apply elem_of_nil in Hx.
  - destruct (f y) eqn:Hy.
    + split; [done |]. intros Hall. rewrite Hall in Hy; [done | by left].
    + rewrite IH. split.
      * intros Hall x Hx. apply elem_of_cons in Hx as [->|Hx]; [done |].
        by apply Hall.
      * intros Hall x Hx. apply Hall. by right.
Qed.

(** [validate_paths] accepts a pair of paths exactly when no system
    directory that exists is the destination or one of its ancestors,
    the source differs from the destination, and the source exists and
    is a directory; it never changes the state. *)
Theorem validate_paths_accepts (source dest : path) (s : state W) :
  (validate_paths source dest s).2 = s
  ∧ ((∃ msg, (validate_paths source dest s).1 = Ret (true, msg))
     ↔ (∀ sys_dir, sys_dir ∈ system_dirs →
          path_exists sys_dir (world s) = true →
          ¬ sys_dir `prefix_of` dest)
       ∧ source ≠ dest
       ∧ path_exists source (world s) = true
       ∧ path_is_dir source (world s) = true).
Proof.
  split; [done |]. unfold validate_paths, observe. simpl.
  destruct (List.find _ system_dirs) as [d|] eqn:Hfind.
  - split; [by intros [msg [=]] |].
    intros (Hsys & _). exfalso.
    apply find_some in Hfind as [Hin Hd].
    apply andb_true_iff in Hd as [Hthere Hd].
    apply (Hsys d); [by apply list_elem_of_In | done |].
    apply orb_true_iff in Hd as [Hd|Hd].
    + apply bool_decide_eq_true in Hd. by subst.
    + unfold in_parents in Hd. apply andb_true_iff in Hd as [_ Hd].
      by apply bool_decide_eq_true in Hd.
  - assert (Hsys : ∀ sys_dir, sys_dir ∈ system_dirs →
              path_exists sys_dir (world s) = true →
              ¬ sys_dir `prefix_of` dest).
    { intros d Hin Hthere Hpre.
      pose proof (proj1 (find_none_iff _ _) Hfind d Hin) as Hd.
      simpl in Hd. rewrite Hthere in Hd. simpl in Hd.
      apply orb_false_iff in Hd as [Heq Hpar].
      apply bool_decide_eq_false in Heq.
      unfold in_parents in Hpar. apply andb_false_iff in Hpar as [Hp|Hp].
      - apply bool_decide_eq_false in Hp. apply Hp. congruence.
      - by apply bool_decide_eq_false in Hp. }
    case_bool_decide as Hsame.
    { split; [by intros [msg [=]] |]. by intros (_ & ? & _). }
    destruct (path_exists source (world s)); simpl.
    2: { split; [by intros [msg [=]] |]. by intros (_ & _ & ? & _). }
    destruct (path_is_dir source (world s)); simpl.
    2: { split; [by intros [msg [=]] |]. by intros (_ & _ & _ & ?). }
    split; [done |]. intros _. by eexists.
Qed.

End TypeAndValidation.

(** ** The directory walker and the category store *)

Section WalkerAndStore.

Lemma visit_kept (resolve : path → option path)
    (is_file : path → option bool) (exclude_resolved : option path)
    (files : list path) (p : path) :
  visit resolve is_file exclude_resolved files p
  = files ++ (if kept resolve is_file exclude_resolved p then [p] else []).
Proof.
  unfold visit, kept. destruct exclude_resolved as [exclude|].
  - destruct (resolve p) as [q|]; simpl; [| by rewrite app_nil_r].
    unfold in_parents.
    destruct (decide (q = exclude)) as [->|Hne].
    + rewrite bool_decide_eq_true_2 by done. simpl.
      rewrite bool_decide_eq_true_2 by done. simpl. by rewrite app_nil_r.
    + rewrite (bool_decide_eq_false_2 (q = exclude)) by done.
      rewrite (bool_decide_eq_true_2 (exclude ≠ q)) by congruence. simpl.
      destruct (bool_decide (exclude `prefix_of` q)); simpl;
        [by rewrite app_nil_r |].
      destruct (is_file p) as [[]|]; by rewrite ?app_nil_r.
  - simpl. destruct (is_file p) as [[]|]; by rewrite ?app_nil_r.
Qed.

Lemma list_files_filter (resolve : path → option path)
    (is_file : path → option bool) (pattern : list path)
    (exclude_resolved : option path) :
  list_files resolve is_file pattern exclude_resolved
  = List.filter (kept resolve is_file exclude_resolved) pattern.
Proof.
  unfold list_files.
  assert (Hgen : ∀ acc,
    foldl (visit resolve is_file exclude_resolved) acc pattern
    = acc ++ List.filter (kept resolve is_file exclude_resolved) pattern).
  { induction pattern as [|p pattern IH]; intros acc; simpl.
    - by rewrite app_nil_r.
    - rewrite IH, visit_kept.
      destruct (kept resolve is_file exclude_resolved p); simpl.
      + by rewrite <- app_assoc.
      + by rewrite app_nil_r. }
  apply Hgen.
Qed.

(** [list_files] returns, in the order met, exactly the entries that
    are regular files and, when a directory is excluded, resolve to a
    path that is neither that directory nor below it; an entry on which
    a call raises is left out. *)
Theorem list_files_excludes (resolve : path → option path)
    (is_file : path → option bool) (pattern : list path)
    (exclude_resolved : option path) :
  sublist (list_files resolve is_file pattern exclude_resolved) pattern
  ∧ ∀ p,
      p ∈ list_files resolve is_file pattern exclude_resolved
      ↔ p ∈ pattern
        ∧ is_file p = Some true
        ∧ (∀ exclude, exclude_resolved = Some exclude →
             ∃ q, resolve p = Some q ∧ ¬ exclude `prefix_of` q).
Proof.
  rewrite list_files_filter. split.
  - induction pattern as [|p pattern IH]; simpl; [done |].
    destruct (kept _ _ _ p); [by apply sublist_skip | by apply sublist_cons].
  - intros p. rewrite list_elem_of_In, filter_In, <- list_elem_of_In.
    unfold kept. rewrite andb_true_iff. split.
    + intros (Hin & Hex & Hfile). split_and!; [done | |].
      * by destruct (is_file p) as [[]|].
      * intros exclude ->. destruct (resolve p) as [q|]; [| done].
        exists q. split; [done |].
        apply negb_true_iff, bool_decide_eq_false in Hex. done.
    + intros (Hin & Hfile & Hex). split_and!; [done | | by rewrite Hfile].
      destruct exclude_resolved as [exclude|]; [| done].
      destruct (Hex exclude eq_refl) as (q & -> & Hout).
      by apply negb_true_iff, bool_decide_eq_false.
Qed.

Lemma dict_set_keys {S : Type} (k : string) (v : S)
    (d : list (string * S)) (k' : string) :
  k' ∈ (dict_set k v d).*1 ↔ k' = k ∨ k' ∈ d.*1.
Proof.
  induction d as [|[k0 v0] d IH]; simpl.
  - rewrite list_elem_of_singleton. split; [by left |].
    intros [? | Hin]; [done |]. by apply elem_of_nil in Hin.
  - destruct (String.eqb_spec k k0) as [<-|Hne]; simpl.
    + rewrite !elem_of_cons. tauto.
    + rewrite !elem_of_cons, IH. tauto.
Qed.

Lemma sets_of_keys {V S : Type} (set_of : V → answer S)
    (members : list (string * V)) :
  ∀ (d c : list (string * S)),
    sets_of set_of members d = Fine c →
    ∀ k, k ∈ d.*1 ∨ k ∈ members.*1 → k ∈ c.*1.
Proof.
  induction members as [|[k0 v0] rest IH]; intros d c Hc k Hk; simpl in *.
  - injection Hc as <-. destruct Hk as [? | Hk]; [done |].
    by apply elem_of_nil in Hk.
  - destruct (set_of v0) as [set_v|e]; [| done].
    apply (IH _ _ Hc). rewrite dict_set_keys.
    destruct Hk as [Hk | Hk]; [by left; right |].
    apply elem_of_cons in Hk as [-> | Hk]; [by left; left | by right].
Qed.

Lemma sets_of_fails {V S : Type} (set_of : V → answer S)
    (members : list (string * V)) (e : exn) :
  ∀ (d : list (string * S)),
    sets_of set_of members d = Fails e
    ↔ first_failure set_of members = Some e.
Proof.
  induction members as [|[k0 v0] rest IH]; intros d; simpl; [done |].
  destruct (set_of v0) as [set_v|e0]; [apply IH |].
  split; by intros [= ->].
Qed.

Lemma default_categories_others {S : Type} (of_strings : list string → S) :
  "Others" ∈ (default_categories of_strings).*1.
Proof.
  unfold default_categories. rewrite <- list_fmap_compose.
  by apply (bool_decide_unpack _).
Qed.

(** A map that [load_categories] returns has a category Others, and a
    category for every key of the document when one is read.  It
    returns no map exactly when the file exists and the reading raises
    an exception of a class that is not caught, or the document is no
    object, or the set of one of its values cannot be built; it then
    raises the first of these exceptions. *)
Theorem load_categories_has_others {W V S : Type} (file_exists : W → bool)
    (write_defaults : W → res unit * W)
    (read_document : W → read_result V * W)
    (items : V → option (list (string * V))) (set_of : V → answer S)
    (of_strings : list string → S) (w : W) :
  (∀ c,
     (load_categories file_exists write_defaults read_document items
        set_of of_strings w).1 = Fine c →
     "Others" ∈ c.*1
     ∧ ∀ data members,
         file_exists w = true →
         (read_document w).1 = Parsed data →
         items data = Some members →
         ∀ k, k ∈ members.*1 → k ∈ c.*1)
  ∧ (∀ e,
       (load_categories file_exists write_defaults read_document items
          set_of of_strings w).1 = Fails e
       ↔ file_exists w = true
         ∧ ((read_document w).1 = Uncaught e
            ∨ ∃ data,
                (read_document w).1 = Parsed data
                ∧ (items data = None ∧ e = PyError "AttributeError"
                   ∨ ∃ members,
                       items data = Some members
                       ∧ first_failure set_of members = Some e))).
Proof.
  pose proof (default_categories_others of_strings) as Hdefault.
  unfold load_categories.
  destruct (file_exists w); simpl.
  2: { split.
       - intros c [= <-]. split; [done |]. by intros.
       - intros e. split; [done | by intros [? _]]. }
  destruct (read_document w) as [[data| |e0] w']; simpl.
  - destruct (items data) as [members|] eqn:Hitems.
    + destruct (sets_of set_of members []) as [cats|e0] eqn:Hsets; simpl.
      * split.
        -- intros c [= <-].
           assert (Hkeys : ∀ k, k ∈ members.*1 → k ∈ cats.*1).
           { intros k Hk. apply (sets_of_keys _ _ _ _ Hsets). by right. }
           case_bool_decide as Hin.
           ++ split; [done |].
              intros data' members' _ [= <-] Hm. rewrite Hitems in Hm.
              injection Hm as <-. done.
           ++ split; [apply dict_set_keys; by left |].
              intros data' members' _ [= <-] Hm. rewrite Hitems in Hm.
              injection Hm as <-. intros k Hk.
              apply dict_set_keys. right. by apply Hkeys.
        -- intros e. split; [done |].
           intros (_ & [Hread | (data' & [= <-] & Hcase)]); [done |].
           destruct Hcase as [[Hnone _] | (members' & Hm & Hfail)].
           ++ by rewrite Hitems in Hnone.
           ++ rewrite Hitems in Hm. injection Hm as <-.
              apply (sets_of_fails set_of members e []) in Hfail.
              by rewrite Hsets in Hfail.
      * split; [done |]. intros e. split.
        -- intros [= <-]. split; [done |]. right. exists data.
           split; [done |]. right. exists members. split; [done |].
           by apply (sets_of_fails set_of members e0 []).
        -- intros (_ & [Hread | (data' & [= <-] & Hcase)]); [done |].
           destruct Hcase as [[Hnone _] | (members' & Hm & Hfail)].
           ++ by rewrite Hitems in Hnone.
           ++ rewrite Hitems in Hm. injection Hm as <-.
              apply (sets_of_fails set_of members e []) in Hfail.
              rewrite Hsets in Hfail. by injection Hfail as ->.
    + split; [done |]. intros e. split.
      * intros [= <-]. split; [done |]. right. exists data.
        split; [done |]. by left.
      * intros (_ & [Hread | (data' & [= <-] & Hcase)]); [done |].
        destruct Hcase as [[_ ->] | (members' & Hm & _)]; [done |].
        by rewrite Hitems in Hm.
  - split.
    + intros c [= <-]. split; [done |]. by intros.
    + intros e. split; [done |].
      intros (_ & [Hread | (data' & Hread & _)]); done.
  - split; [done |]. intros e. split.
    + intros [= <-]. split; [done |]. by left.
    + intros (_ & [[= <-] | (data' & Hread & _)]); done.
Qed.

End WalkerAndStore.

(** ** Concrete runs on the in-memory file system *)

Module Concrete.
Import MemFS.

(** C1, counterexample: a dry run creates the directory [out/new], which
    did not exist; and a dry run whose [mkdir] fails, the parent of the
    destination being the regular file [d/f.txt], returns failure. *)
Lemma dry_run_creates_directory :
  path_exists ["out"; "new"] demo = false
  ∧ (do_transfer ["d"; "f.txt"] ["out"; "new"; "f.txt"] "move" true
       (start demo)).1 = Ret true
  ∧ path_exists ["out"; "new"]
      (world (do_transfer ["d"; "f.txt"] ["out"; "new"; "f.txt"] "move"
                true (start demo)).2) = true
  ∧ (do_transfer ["d"; "document.pdf"] ["d"; "f.txt"; "document.pdf"]
       "move" true (start demo)).1 = Ret false.
Proof. by vm_compute. Qed.



(** The steps of that run. *)
Example run_steps_demo :
  trace (process_directory 8 demo_run (start demo)).2
  = [EvLoadCategories; EvMkdir ["out"; "Documents"];
     EvMove ["d"; "f.txt"] ["out"; "Documents"; "f.txt"];
     EvAppend ["undo.log"] ("MOVE|d/f.txt|out/Documents/f.txt" +:+ nl)].
Proof. by vm_compute. Qed.

(** C3, the failing run: with the action "delete" a real run returns
    failure and a dry run returns success; neither raises. *)
Lemma unknown_action_is_not_raised :
  (do_transfer ["d"; "f.txt"] ["out"; "f.txt"] "delete" false
     (start demo)).1 = Ret false
  ∧ (do_transfer ["d"; "f.txt"] ["out"; "f.txt"] "delete" true
       (start demo)).1 = Ret true.
Proof. by vm_compute. Qed.

Lemma do_transfer_unknown_action_witness :
  do_transfer ["d"; "f.txt"] ["out"; "f.txt"] "delete" false (start demo)
  = (Ret (mkdir_ok ["out"; "f.txt"] (start demo) && false),
     after_mkdir ["out"; "f.txt"] (start demo)).
Proof.
  apply do_transfer_unknown_action; discriminate.
Defined.

(** C4, counterexample: for a destination that does not exist the
    unknown policy "bogus" is not looked at and the destination is
    returned. *)
Lemma unknown_policy_free_destination :
  ¬ known_policy "bogus"
  ∧ (resolve_conflict 0 ["out"; "new.txt"] "bogus" (start demo)).1
    = Ret (Some ["out"; "new.txt"]).
Proof.
  split; [| by vm_compute].
  intros [Hp | [Hp | Hp]]; discriminate Hp.
Qed.

Lemma resolve_conflict_unknown_policy_witness :
  resolve_conflict 0 ["d"; "f.txt"] "bogus" (start demo)
  = (Raise (ValueError "Unknown conflict policy: bogus"), start demo).
Proof.
  apply resolve_conflict_unknown_policy.
  - reflexivity.
  - intros [Hp | [Hp | Hp]]; discriminate Hp.
Defined.

Lemma perform_undo_replays_witness :
  ∃ oks : list bool,
    length oks = 3
    ∧ (perform_undo None (start undo_demo)).1
      = Ret {| u_total := 3; u_succeeded := tally true oks;
               u_failed := tally false oks |}.
Proof.
  destruct (perform_undo_replays None
              ["MOVE|src/f.txt|d/f.txt" +:+ nl;
               "MOVE|src/gone.txt|d/gone.txt" +:+ nl;
               "no record" +:+ nl]
              undo_demo (start undo_demo))
    as (order & oks & s_loop & _ & _ & _ & Hlen & _ & Hrun & _).
  - reflexivity.
  - reflexivity.
  - intros f Hf. discriminate Hf.
  - exists oks. split; [exact Hlen |]. rewrite Hrun. reflexivity.
Defined.

(** The undo pass over [undo_demo]: the last line is no record, the
    middle record has lost its destination, the first is restored; then
    the log is removed. *)
Example perform_undo_demo :
  (perform_undo None (start undo_demo)).1
  = Ret {| u_total := 3; u_succeeded := 1; u_failed := 2 |}
  ∧ trace (perform_undo None (start undo_demo)).2
    = [EvReadLines ["undo.log"]; EvMkdir ["src"];
       EvMove ["d"; "f.txt"] ["src"; "f.txt"]; EvUnlink ["undo.log"]]
  ∧ world (perform_undo None (start undo_demo)).2 !! ["undo.log"] = None
  ∧ world (perform_undo None (start undo_demo)).2 !! ["src"; "f.txt"]
    = Some (File "hello").
Proof. by vm_compute. Qed.

(** With a callback the rounds are announced by their position; the
    round of the line that is no record, the first one, is not. *)
Example perform_undo_progress_demo :
  trace (perform_undo (Some (λ _ _, None)) (start undo_demo)).2
  = [EvReadLines ["undo.log"]; EvUndoProgress 2 3; EvMkdir ["src"];
     EvMove ["d"; "f.txt"] ["src"; "f.txt"]; EvUndoProgress 3 3;
     EvUnlink ["undo.log"]].
Proof. by vm_compute. Qed.

(** C6, counterexample: the extension [.JPG] is no key of the index,
    its lower-case form is; and the empty extension is no key. *)
Lemma index_keys_are_lower_case :
  (build_ext_index [("Images", [".JPG"; ""])]).1 !! ".JPG" = None
  ∧ (build_ext_index [("Images", [".JPG"; ""])]).1 !! "" = None
  ∧ (build_ext_index [("Images", [".JPG"; ""])]).1 !! ".jpg"
    = Some "Images".
Proof. by vm_compute. Qed.

Lemma build_ext_index_first_wins_witness :
  (build_ext_index [("Images", [".JPG"]); ("Photos", [".jpg"])]).1
    !! lower ".jpg" = Some "Images"
  ∧ dup_msg (lower ".jpg") "Images" "Photos"
    ∈ (ext_index_scan [("Images", [".JPG"]); ("Photos", [".jpg"])]).2.
Proof.
  apply (proj2 (proj2 (proj2 (proj2
           (build_ext_index_first_wins
              [("Images", [".JPG"]); ("Photos", [".jpg"])]))))
           [("Images", ".JPG")] "Photos" ".jpg" [] "Images").
  - reflexivity.
  - discriminate.
  - reflexivity.
Defined.

Lemma resolve_conflict_rename_numbered_witness :
  resolve_conflict 5 ["d"; "document.pdf"] "rename" (start demo)
  = (Ret (Some ["d"; "document (2).pdf"]), start demo).
Proof.
  refine (resolve_conflict_rename_numbered 5 1 ["d"; "document.pdf"]
            (start demo) _ _ _ _).
  - reflexivity.
  - intros k Hk. assert (k = 1) as -> by lia. reflexivity.
  - reflexivity.
  - lia.
Defined.

Lemma organize_by_size_thresholds_witness :
  size_category 5 = "Small (Under 1MB)"
  ∧ size_dest_file 5 ["d"; "f.txt"] ["out"]
    = ["out"; "Small (Under 1MB)"; "f.txt"].
Proof.
  destruct (organize_by_size_thresholds 8 ["d"; "f.txt"] ["out"] ∅
              demo_run 5 (start demo))
    as (Hsmall & _ & _ & _ & _ & Hdest & _).
  - reflexivity.
  - split; [apply Hsmall; lia | exact Hdest].
Defined.

Lemma process_directory_counts_witness :
  ∃ st s',
    process_directory 8 demo_run (start demo) = (Ret st, s')
    ∧ processed st = (succeeded st + failed st + skipped st)%nat
    ∧ (processed st ≤ total st)%nat.
Proof.
  destruct (process_directory 8 demo_run (start demo)) as [o s'] eqn:Hrun.
  assert (Ho : (process_directory 8 demo_run (start demo)).1
               = Ret {| total := 1; processed := 1; succeeded := 1;
                        failed := 0; skipped := 0; error := None |})
    by (vm_compute; reflexivity).
  rewrite Hrun in Ho. simpl in Ho. subst o.
  eexists _, s'. split; [reflexivity |].
  exact (process_directory_counts 8 demo_run (start demo) _ s' Hrun).
Defined.

(** A run over three files that is cancelled before the second one:
    one file is processed out of three. *)
Example cancelled_run :
  ret_value
    (process_directory 8
       {| source := ["d"]; dest := ["out"]; mode := "name";
          action := "copy"; recursive := false;
          conflict_policy := "rename"; dry_run := false;
          skip_unknown := false;
          files := Some [["d"; "f.txt"]; ["d"; "document.pdf"];
                         ["d"; "document (1).pdf"]];
          categories_arg := None;
          cancel_event := Some (λ idx, (2 <=? idx)%nat);
          on_progress := None |}
       (start demo)).1
  = Some {| total := 3; processed := 1; succeeded := 1; failed := 0;
            skipped := 0; error := None |}.
Proof. by vm_compute. Qed.



End Concrete.

(** ** More concrete runs *)

Module MoreRuns.
Import MemFS.

Import Samples.

Lemma build_ext_index_sound_witness :
  ∃ e, ("Images", e) ∈ occurrences [("Images", [".JPG"]); ("Photos", [".jpg"])]
       ∧ e ≠ "" ∧ lower e = ".jpg".
Proof.
  apply (build_ext_index_sound
           [("Images", [".JPG"]); ("Photos", [".jpg"])] ".jpg" "Images").
  reflexivity.
Defined.

Lemma build_ext_index_normalised_witness :
  ∃ first,
    (build_ext_index [("Images", [".jpg"]); ("Photos", [".jpg"; ".raw"])]).1
      !! ".jpg" = Some first
    ∧ fst <$> List.find (λ ce, String.eqb ce.2 ".jpg")
                (occurrences
                   [("Images", [".jpg"]); ("Photos", [".jpg"; ".raw"])])
      = Some first.
Proof.
  apply (build_ext_index_normalised
           [("Images", [".jpg"]); ("Photos", [".jpg"; ".raw"])]
           "Photos" ".jpg").
  - intros ce Hce. vm_compute in Hce.
    repeat (apply elem_of_cons in Hce as [-> | Hce];
            [split; [discriminate | reflexivity] |]).
    by apply elem_of_nil in Hce.
  - vm_compute. apply list_elem_of_further, list_elem_of_here.
Defined.

Lemma build_ext_index_warns_witness :
  (build_ext_index [("Images", [".jpg"; ".png"])]).2 = None.
Proof.
  apply build_ext_index_warns. vm_compute.
  apply NoDup_cons. split; [| apply NoDup_singleton].
  intros Hin. apply list_elem_of_singleton in Hin. discriminate Hin.
Defined.

Lemma get_extensions_normalises_witness :
  startswith_dot ".png" = true ∧ ".png" ≠ "" ∧ lower ".png" = ".png".
Proof.
  apply (proj2 (get_extensions_normalises "JPG, .png;jpg")).
  vm_compute. apply list_elem_of_further, list_elem_of_here.
Defined.

Lemma bulk_extensions_index_witness :
  (build_ext_index [("Images", get_extensions "JPG, .png;jpg")]).1
    !! ".jpg" = Some "Images"
  ∧ (build_ext_index [("Images", get_extensions "JPG, .png;jpg")]).2
    = None.
Proof.
  apply bulk_extensions_index.
  vm_compute. apply list_elem_of_here.
Defined.

Lemma resolve_conflict_rename_free_witness :
  start demo = start demo
  ∧ ∃ p, Some ["d"; "document (2).pdf"] = Some p
      ∧ path_exists p demo = false
      ∧ (p = ["d"; "document.pdf"]
         ∨ path_exists ["d"; "document.pdf"] demo = true
           ∧ ∃ k : nat, (1 ≤ k)%nat ∧ p = candidate ["d"; "document.pdf"] k
               ∧ ∀ j : nat, (1 ≤ j < k)%nat →
                   path_exists (candidate ["d"; "document.pdf"] j) demo
                   = true).
Proof.
  apply (resolve_conflict_rename_free 5 ["d"; "document.pdf"]
           (start demo) (start demo) (Some ["d"; "document (2).pdf"])).
  reflexivity.
Defined.

Lemma do_transfer_real_witness :
  (do_transfer ["d"; "f.txt"] ["out"; "f.txt"] "copy" false (start demo)).1
  = Ret true.
Proof.
  destruct (do_transfer_real ["d"; "f.txt"] ["out"; "f.txt"] "copy"
              (start demo)) as [Hres _].
  - right. reflexivity.
  - rewrite Hres. reflexivity.
Defined.

(** A file whose name is no UTF-8 text is moved, but its record cannot
    be written: the transfer is reported as failed, and the undo log is
    left empty. *)
Example unrecordable_name_moved :
  (do_transfer ["d"; latin1_name] ["out"; latin1_name] "move" false
     (start accents_demo)).1 = Ret false
  ∧ world (do_transfer ["d"; latin1_name] ["out"; latin1_name] "move"
             false (start accents_demo)).2 !! ["out"; latin1_name]
    = Some (File "two")
  ∧ world (do_transfer ["d"; latin1_name] ["out"; latin1_name] "move"
             false (start accents_demo)).2 !! ["d"; latin1_name]
    = None
  ∧ world (do_transfer ["d"; latin1_name] ["out"; latin1_name] "move"
             false (start accents_demo)).2 !! ["undo.log"]
    = Some (File "").
Proof. by vm_compute. Qed.

Lemma line_components_src : Forall line_component ["src"; "f.txt"].
Proof. repeat constructor; discriminate. Defined.

Lemma recordable_dst : recordable ["d"; "f.txt"].
Proof.
  split; [repeat constructor; discriminate | reflexivity].
Defined.

Lemma undo_record_read_back_witness :
  readlines (old_record
             +:+ undo_record "move" ["src"; "f.txt"] ["d"; "f.txt"])
  = readlines old_record
    ++ [undo_record "move" ["src"; "f.txt"] ["d"; "f.txt"]]
  ∧ (undo_line (undo_record "move" ["src"; "f.txt"] ["d"; "f.txt"])
       (start demo)).1 = Ret (Some true).
Proof.
  destruct (undo_record_read_back "move" ["src"; "f.txt"] ["d"; "f.txt"]
              old_record (start demo)) as [Hlines Hline].
  - left. reflexivity.
  - exact line_components_src.
  - exact recordable_dst.
  - right. exists "MOVE|old/a.txt|kept/a.txt". reflexivity.
  - split; [exact Hlines |]. rewrite Hline. reflexivity.
Defined.

(** A transfer and the undo pass after it: the file is back where it
    was, and the log is gone. *)
Example transfer_and_undo :
  (perform_undo None
     (do_transfer ["d"; "f.txt"] ["out"; "f.txt"] "move" false
        (start {[ ["d"] := Dir; ["d"; "f.txt"] := File "hello" ]})).2).1
  = Ret {| u_total := 1; u_succeeded := 1; u_failed := 0 |}
  ∧ world
      (perform_undo None
         (do_transfer ["d"; "f.txt"] ["out"; "f.txt"] "move" false
            (start {[ ["d"] := Dir; ["d"; "f.txt"] := File "hello" ]})).2).2
      !! ["d"; "f.txt"] = Some (File "hello").
Proof. by vm_compute. Qed.

(** A name with a line feed in it gives a record of three lines, of
    which the undo pass restores nothing. *)
Example broken_record_not_undone :
  (perform_undo None
     (do_transfer ["d"; "a" +:+ nl +:+ "b"] ["out"; "a" +:+ nl +:+ "b"]
        "move" false
        (start {[ ["d"] := Dir;
                  ["d"; "a" +:+ nl +:+ "b"] := File "hello" ]})).2).1
  = Ret {| u_total := 3; u_succeeded := 0; u_failed := 3 |}.
Proof. by vm_compute. Qed.


Lemma get_last_undo_destination_reads_witness :
  get_last_undo_destination (start demo)
  = (Ret "kept/a.txt", St demo [EvReadLines ["undo.log"]]).
Proof.
  refine (get_last_undo_destination_reads "move" ["old"; "a.txt"]
            ["kept"; "a.txt"] [] 26 demo (start demo) _ _ _ _ _ _ _).
  - left. reflexivity.
  - repeat constructor; discriminate.
  - split; [repeat constructor; discriminate | reflexivity].
  - reflexivity.
  - reflexivity.
  - discriminate.
  - reflexivity.
Defined.

Lemma perform_undo_returns_witness :
  ∃ st s',
    perform_undo None (start undo_demo) = (Ret st, s')
    ∧ (u_succeeded st + u_failed st = u_total st)%nat.
Proof.
  destruct (perform_undo_returns None (start undo_demo))
    as [Hret | (e & w1 & _ & Hread & _)].
  - intros f Hf. discriminate Hf.
  - exact Hret.
  - discriminate Hread.
Defined.

Lemma process_directory_nothing_to_do_witness :
  start demo = start demo
  ∧ processed (error_stats "Unknown organization mode: colour") = 0
  ∧ succeeded (error_stats "Unknown organization mode: colour") = 0
  ∧ failed (error_stats "Unknown organization mode: colour") = 0
  ∧ skipped (error_stats "Unknown organization mode: colour") = 0.
Proof.
  apply (process_directory_nothing_to_do 8 modeless_run (start demo)).
  - reflexivity.
  - reflexivity.
Defined.

Lemma process_directory_uncancelled_witness :
  ∃ st s',
    process_directory 8 demo_run (start demo) = (Ret st, s')
    ∧ total st = length (files_of demo_run (start demo))
    ∧ processed st = total st.
Proof.
  destruct (process_directory 8 demo_run (start demo)) as [o s'] eqn:Hrun.
  assert (Ho : (process_directory 8 demo_run (start demo)).1
               = Ret {| total := 1; processed := 1; succeeded := 1;
                        failed := 0; skipped := 0; error := None |})
    by (vm_compute; reflexivity).
  rewrite Hrun in Ho. simpl in Ho. subst o.
  eexists _, s'. split; [reflexivity |].
  apply (process_directory_uncancelled 8 demo_run (start demo) s' _ Hrun).
  - reflexivity.
  - intros i. reflexivity.
Defined.

Lemma process_directory_cancelled_witness :
  ∃ st s',
    process_directory 8 cancelled_demo_run (start demo) = (Ret st, s')
    ∧ total st = length (files_of cancelled_demo_run (start demo))
    ∧ processed st = 1.
Proof.
  destruct (process_directory 8 cancelled_demo_run (start demo))
    as [o s'] eqn:Hrun.
  assert (Ho : (process_directory 8 cancelled_demo_run (start demo)).1
               = Ret {| total := 3; processed := 1; succeeded := 1;
                        failed := 0; skipped := 0; error := None |})
    by (vm_compute; reflexivity).
  rewrite Hrun in Ho. simpl in Ho. subst o.
  eexists _, s'. split; [reflexivity |].
  apply (process_directory_cancelled 8 cancelled_demo_run (start demo) s'
           _ 2 Hrun).
  - reflexivity.
  - simpl. lia.
  - intros i Hi. assert (i = 1) as -> by lia. reflexivity.
  - reflexivity.
Defined.

Lemma process_directory_dry_run_witness :
  ∃ evs,
    trace (process_directory 8 dry_demo_run (start demo)).2 = [] ++ evs
    ∧ Forall (dry_event false) evs.
Proof.
  apply (process_directory_dry_run 8 dry_demo_run (start demo)).
  reflexivity.
Defined.

(** What a dry run does under the overwrite policy: the file at the
    destination is removed, and nothing takes its place. *)
Example dry_run_overwrite_removes :
  conflict_demo !! ["out"; "f"; "f.txt"] = Some (File "taken")
  ∧ world (do_transfer ["d"; "f.txt"] ["out"; "f"; "f.txt"] "move" true
             (resolve_conflict 0 ["out"; "f"; "f.txt"] "overwrite"
                (start conflict_demo)).2).2
      !! ["out"; "f"; "f.txt"] = None.
Proof. by vm_compute. Qed.

Lemma bogus_is_unknown : ¬ known_policy (conflict_policy bogus_run).
Proof. intros [Hp | [Hp | Hp]]; discriminate Hp. Defined.

Lemma unknown_policy_raises_witness :
  organize_by_name 8 ["d"; "f.txt"] ["out"] ∅ bogus_run
    (start conflict_demo)
  = (Raise (unknown_policy_error "bogus"), start conflict_demo).
Proof.
  apply (proj1 (proj2 (unknown_policy_raises 8 ["d"; "f.txt"] ["out"] ∅
                         bogus_run (start conflict_demo) bogus_is_unknown))).
  reflexivity.
Defined.

Lemma unknown_policy_fails_file_witness :
  organize_by_size 8 ["d"; "f.txt"] ["out"] ∅ bogus_run
    (start conflict_demo)
  = (Ret (Some false), start conflict_demo).
Proof.
  apply (proj2 (proj2 (unknown_policy_fails_file 8 ["d"; "f.txt"] ["out"]
                         ∅ bogus_run (start conflict_demo)
                         bogus_is_unknown)) 5%Z).
  - reflexivity.
  - reflexivity.
Defined.

Lemma stat_failure_fails_file_witness :
  organize_by_size 8 ["d"; "gone.txt"] ["out"] ∅ demo_run (start demo)
  = (Ret (Some false), start demo).
Proof.
  apply (proj2 (stat_failure_fails_file 8 ["d"; "gone.txt"] ["out"] ∅
                  demo_run (start demo) OtherOSError)).
  reflexivity.
Defined.

Lemma organize_by_type_listed_witness :
  ∃ first,
    first_cat (lower ".jpg") (occurrences [("Images", [".jpg"])])
    = Some first
    ∧ (organize_by_type 8 ["d"; "PHOTO.JPG"] ["out"]
         (build_ext_index [("Images", [".jpg"])]).1 demo_run
         : M memfs (option bool))
      = resolve_and_transfer 8 ["d"; "PHOTO.JPG"]
          (pjoin (pjoin ["out"] first) "PHOTO.JPG") demo_run.
Proof.
  apply (organize_by_type_listed 8 [("Images", [".jpg"])] "Images" ".jpg"
           ["d"; "PHOTO.JPG"] ["out"] demo_run).
  - vm_compute. apply list_elem_of_here.
  - discriminate.
  - reflexivity.
Defined.

Lemma organize_by_type_unlisted_witness :
  (organize_by_type 8 ["d"; "README"] ["out"]
     (build_ext_index [("Images", [".jpg"])]).1 demo_run
     : M memfs (option bool))
  = resolve_and_transfer 8 ["d"; "README"]
      (pjoin (pjoin ["out"] "Others") "README") demo_run.
Proof.
  apply (organize_by_type_unlisted 8 [("Images", [".jpg"])]
           ["d"; "README"] ["out"] demo_run).
  vm_compute. intros Hin. apply list_elem_of_singleton in Hin.
  discriminate Hin.
Defined.

Lemma validate_paths_accepts_witness :
  ∃ msg, (validate_paths ["d"] ["out"] (start demo)).1 = Ret (true, msg).
Proof.
  apply (proj2 (validate_paths_accepts ["d"] ["out"] (start demo))).
  split_and!.
  - intros sys_dir Hin _ [k Hk]. vm_compute in Hin.
    repeat (apply elem_of_cons in Hin as [-> | Hin]; [discriminate Hk |]).
    by apply elem_of_nil in Hin.
  - discriminate.
  - reflexivity.
  - reflexivity.
Defined.

Lemma organize_by_first_letter_folder_witness :
  first_letter_category ["d"; "apple.txt"] = "A"
  ∧ first_letter_category ["d"; "1.txt"] = "#"
  ∧ first_letter_category ["d"; utf8_name] = capital_e_acute
  ∧ first_letter_category ["d"; latin1_name] = "#".
Proof.
  destruct (organize_by_first_letter_folder 8 ["d"; "apple.txt"] ["out"]
              ∅ demo_run) as (_ & _ & Hletter & _).
  destruct (organize_by_first_letter_folder 8 ["d"; "1.txt"] ["out"]
              ∅ demo_run) as (_ & _ & Hdigit & _).
  destruct (organize_by_first_letter_folder 8 ["d"; utf8_name] ["out"]
              ∅ demo_run) as (_ & _ & _ & Hother & _).
  destruct (organize_by_first_letter_folder 8 ["d"; latin1_name] ["out"]
              ∅ demo_run) as (_ & _ & _ & _ & Hbyte).
  split_and!.
  - rewrite (Hletter "a"%char "pple"); reflexivity.
  - rewrite (Hdigit "1"%char ""); reflexivity.
  - rewrite (Hother 2); [reflexivity | reflexivity | lia].
  - apply Hbyte; [discriminate | reflexivity].
Defined.

(** A listing of two files of which the second lies in the excluded
    directory. *)
Lemma list_files_excludes_witness :
  is_Some (Some true)
  ∧ ["d"; "a.txt"]
    ∈ list_files Some (λ _, Some true)
        [["d"; "a.txt"]; ["d"; "out"; "b.txt"]] (Some ["d"; "out"]).
Proof.
  split; [by eexists |].
  apply (proj2 (list_files_excludes Some (λ _, Some true)
                  [["d"; "a.txt"]; ["d"; "out"; "b.txt"]]
                  (Some ["d"; "out"]))).
  split_and!.
  - apply list_elem_of_here.
  - reflexivity.
  - intros exclude [= <-]. exists ["d"; "a.txt"]. split; [reflexivity |].
    intros [k Hk]. discriminate Hk.
Defined.

Lemma load_categories_has_others_witness :
  (sample_load_categories
     (Some (Parsed (JObject (member "Docs" (JStrings [".txt"; ".txt"])
                               no_more))))).1
  = Fine [("Docs", [".txt"]); ("Others", [])]
  ∧ "Others" ∈ [("Docs", [".txt"]); ("Others", [])].*1.
Proof.
  split; [reflexivity |].
  apply (proj1 (load_categories_has_others store_exists store_write
                  store_read json_items json_set_of (λ l, l)
                  (Some (Parsed (JObject (member "Docs"
                                            (JStrings [".txt"; ".txt"])
                                            no_more)))))).
  reflexivity.
Defined.

(** Three documents that give no map: an array, an object with a member
    that is [null], and a file that is no UTF-8 text; and a document that
    cannot be parsed, for which the defaults are returned. *)
Example load_categories_raises :
  (sample_load_categories (Some (Parsed (JStrings [".txt"])))).1
  = Fails (PyError "AttributeError")
  ∧ (sample_load_categories
       (Some (Parsed (JObject (member "Docs" JNull no_more))))).1
    = Fails (PyError "TypeError")
  ∧ (sample_load_categories
       (Some (Uncaught (PyError "UnicodeDecodeError")))).1
    = Fails (PyError "UnicodeDecodeError")
  ∧ (sample_load_categories (Some Caught)).1 = Fine DEFAULT_CATEGORIES
  ∧ (sample_load_categories None).1 = Fine DEFAULT_CATEGORIES.
Proof. by vm_compute. Qed.

End MoreRuns.
